(** * Offline task list with a synchronisation queue

    A shallow embedding of the task service (services/taskService.ts) and
    of the synchronisation service (services/syncService.ts, the full
    variant that returns a [SyncResult]), with the two SQLite tables they
    read and write, followed by the properties of the conflict resolver,
    the queue upsert, the retry bookkeeping and the sync pass.  The stub
    variant of the synchronisation service and the handlers of the routes
    (routes/tasks.ts, routes/sync.ts) are embedded after them, and their
    properties come last.

    The tables are lists of rows in insertion (rowid) order, and an SQL
    statement is the list operation it denotes; statements are taken to
    succeed, and calls run one after the other, as the [await]s order
    them.  Everything the code obtains from outside (identifiers from
    uuid, clock readings of JavaScript and of SQLite, JSON text, the
    parsing of dates, the answer of the batch transmitter) is a parameter;
    each reading of an outside source is indexed by a counter kept in the
    state, so that successive readings are unrelated.  An exception is a
    result of its own, and the state reached when it is thrown is kept. *)

From Stdlib Require Import ZArith Lia.
From stdpp Require Import base option list strings sorting.

Local Open Scope Z_scope.

(** ** Data model (types/index.ts) *)

Record Task := mkTask {
  id : string;
  title : string;
  description : string;
  completed : bool;
  is_deleted : bool;
  sync_status : string;
  created_at : string;
  updated_at : string;
  last_synced_at : option string;
  server_id : option string
}.

(** [Partial<Task>]: every field may be [undefined] ([None]); the two
    nullable fields may moreover hold [null] ([Some None]). *)
Record PartialTask := mkPartial {
  p_id : option string;
  p_title : option string;
  p_description : option string;
  p_completed : option bool;
  p_is_deleted : option bool;
  p_sync_status : option string;
  p_created_at : option string;
  p_updated_at : option string;
  p_last_synced_at : option (option string);
  p_server_id : option (option string)
}.

(** A [Task] passed where a [Partial<Task>] is expected. *)
Definition partial_of_task (t : Task) : PartialTask :=
  {| p_id := Some (id t); p_title := Some (title t);
     p_description := Some (description t);
     p_completed := Some (completed t); p_is_deleted := Some (is_deleted t);
     p_sync_status := Some (sync_status t);
     p_created_at := Some (created_at t); p_updated_at := Some (updated_at t);
     p_last_synced_at := Some (last_synced_at t);
     p_server_id := Some (server_id t) |}.

(** The object literal [{}]. *)
Definition empty_partial : PartialTask :=
  mkPartial None None None None None None None None None None.

Record SyncResult := mkResult {
  success : nat;
  failed : nat;
  conflicts : nat;
  total : nat
}.

(** One entry of [BatchSyncResponse.results].  [r_localId] is optional
    here because the transmitter of the source copies [item.localId],
    which a queue row does not have. *)
Record ResponseItem := mkResponse {
  r_localId : option string;
  r_success : option bool;
  r_conflict : option bool;
  r_error : option string;
  r_data : option PartialTask;
  r_serverData : option Task
}.

Record BatchSyncResponse := { results : list ResponseItem }.

Inductive Operation := create | update | delete.

Definition operation_name (o : Operation) : string :=
  match o with
  | create => "create"
  | update => "update"
  | delete => "delete"
  end.

(** ** The two tables *)

(** A row of [tasks]; the columns are those of the INSERT statement of
    [createTask].  The two flags are stored as integers. *)
Record TaskRow := mkTaskRow {
  t_id : string;
  t_title : string;
  t_description : string;
  t_completed : Z;
  t_is_deleted : Z;
  t_sync_status : string;
  t_created_at : string;
  t_updated_at : string;
  t_last_synced_at : option string;
  t_server_id : option string
}.

(** Modelled from the spec: the declaration of the table [sync_queue]
    (db/database.ts) is not among the sources.  The columns are the ones
    the SQL statements of the synchronisation service name, which are the
    attributes the data model gives a queue item, with the status that an
    item is left with once its retries are used up; a column that the
    INSERT statement does not set is NULL. *)
Record SyncQueueItem := mkItem {
  q_id : string;
  q_task_id : string;
  q_operation : string;
  q_data : string;
  q_created_at : string;
  q_retry_count : Z;
  q_error_message : option string;
  q_status : option string;
  q_updated_at : option string
}.

(** The database, with the counter that indexes the readings of outside
    sources. *)
Record World := mkWorld {
  tasks : list TaskRow;
  sync_queue : list SyncQueueItem;
  tick : nat
}.

Definition with_tasks (ts : list TaskRow) (w : World) : World :=
  mkWorld ts (sync_queue w) (tick w).
Definition with_queue (q : list SyncQueueItem) (w : World) : World :=
  mkWorld (tasks w) q (tick w).
Definition bump (w : World) : World :=
  mkWorld (tasks w) (sync_queue w) (S (tick w)).

(** [UPDATE table SET ... WHERE cond]: every row that satisfies the
    condition is rewritten, in place. *)
Definition sql_update {A} (cond : A -> bool) (set : A -> A) (rows : list A) : list A :=
  (fun r => if cond r then set r else r) <$> rows.

(** [DELETE FROM table WHERE cond]. *)
Definition sql_delete {A} (cond : A -> bool) (rows : list A) : list A :=
  List.filter (fun r => negb (cond r)) rows.

(** [SELECT * FROM table WHERE cond], in table order. *)
Definition sql_select {A} (cond : A -> bool) (rows : list A) : list A :=
  List.filter cond rows.

(** [ORDER BY col ASC] and [ORDER BY col DESC] on a text column: byte-wise
    comparison.  SQLite leaves the order of rows with equal keys open;
    the sort used here decides it one way. *)
Definition order_by_asc {A} (col : A -> string) (rows : list A) : list A :=
  merge_sort (fun a b => String.le (col a) (col b)) rows.
Definition order_by_desc {A} (col : A -> string) (rows : list A) : list A :=
  merge_sort (fun a b => String.le (col b) (col a)) rows.

Definition eqs (a b : string) : bool := bool_decide (a = b).

(** ** The task service (services/taskService.ts) *)

Section TaskService.

(** [uuidv4()], [new Date().toISOString()], at a given reading. *)
Variable uuidv4 : nat -> string.
Variable Date_now : nat -> string.

Definition read_uuid (w : World) : string * World := (uuidv4 (tick w), bump w).
Definition read_now (w : World) : string * World := (Date_now (tick w), bump w).

Definition mapRowToTask (row : TaskRow) : Task :=
  {| id := t_id row;
     title := t_title row;
     description := t_description row;
     completed := negb (t_completed row =? 0);
     is_deleted := negb (t_is_deleted row =? 0);
     sync_status := t_sync_status row;
     created_at := t_created_at row;
     updated_at := t_updated_at row;
     last_synced_at := t_last_synced_at row;
     server_id := t_server_id row |}.

(** The parameter list of the INSERT statement of [createTask]. *)
Definition row_of_task (t : Task) : TaskRow :=
  {| t_id := id t;
     t_title := title t;
     t_description := description t;
     t_completed := if completed t then 1 else 0;
     t_is_deleted := if is_deleted t then 1 else 0;
     t_sync_status := sync_status t;
     t_created_at := created_at t;
     t_updated_at := updated_at t;
     t_last_synced_at := last_synced_at t;
     t_server_id := server_id t |}.

(** [x || ''] on an optional string. *)
Definition or_empty (x : option string) : string := default EmptyString x.

Definition createTask (taskData : PartialTask) (w : World) : Task * World :=
  let '(taskId, w1) := read_uuid w in
  let '(now, w2) := read_now w1 in
  let task :=
    {| id := taskId;
       title := or_empty (p_title taskData);
       description := or_empty (p_description taskData);
       completed := false;
       is_deleted := false;
       sync_status := "pending";
       created_at := now;
       updated_at := now;
       last_synced_at := None;
       server_id := None |} in
  (task, with_tasks (tasks w2 ++ [row_of_task task]) w2).

Definition getTask (i : string) (w : World) : option Task :=
  mapRowToTask <$>
    head (sql_select (fun r => eqs (t_id r) i && (t_is_deleted r =? 0)) (tasks w)).

Definition set_opt {A} (x : option A) (old : A) : A := default old x.

Definition updateTask (i : string) (updates : PartialTask) (w : World)
  : option Task * World :=
  match getTask i w with
  | None => (None, w)
  | Some _ =>
      let '(now, w1) := read_now w in
      let set r :=
        {| t_id := t_id r;
           t_title := set_opt (p_title updates) (t_title r);
           t_description := set_opt (p_description updates) (t_description r);
           t_completed :=
             set_opt ((fun b : bool => if b then 1 else 0) <$> p_completed updates)
                     (t_completed r);
           t_is_deleted := t_is_deleted r;
           t_sync_status := "pending";
           t_created_at := t_created_at r;
           t_updated_at := now;
           t_last_synced_at := t_last_synced_at r;
           t_server_id := t_server_id r |} in
      let w2 := with_tasks (sql_update (fun r => eqs (t_id r) i) set (tasks w1)) w1 in
      (getTask i w2, w2)
  end.

Definition deleteTask (i : string) (w : World) : bool * World :=
  match getTask i w with
  | None => (false, w)
  | Some _ =>
      let '(now, w1) := read_now w in
      let set r :=
        {| t_id := t_id r;
           t_title := t_title r;
           t_description := t_description r;
           t_completed := t_completed r;
           t_is_deleted := 1;
           t_sync_status := "pending";
           t_created_at := t_created_at r;
           t_updated_at := now;
           t_last_synced_at := t_last_synced_at r;
           t_server_id := t_server_id r |} in
      (true, with_tasks (sql_update (fun r => eqs (t_id r) i) set (tasks w1)) w1)
  end.

Definition getAllTasks (w : World) : list Task :=
  mapRowToTask <$>
    order_by_desc t_created_at (sql_select (fun r => t_is_deleted r =? 0) (tasks w)).

Definition getTasksNeedingSync (w : World) : list Task :=
  mapRowToTask <$>
    order_by_asc t_updated_at
      (sql_select
         (fun r => (eqs (t_sync_status r) "pending" || eqs (t_sync_status r) "error")
                   && (t_is_deleted r =? 0))
         (tasks w)).

End TaskService.

(** ** The synchronisation service (services/syncService.ts) *)

(** What a call produces: a value, or a thrown [Error], kept as its
    message.  The state reached when the error is thrown is kept by the
    caller, as in JavaScript. *)
Inductive outcome (A : Type) :=
  | Returned (a : A)
  | Thrown (message : string).
Arguments Returned {A} a.
Arguments Thrown {A} message.

Inductive SyncedOrError := synced | error.

Definition status_name (s : SyncedOrError) : string :=
  match s with
  | synced => "synced"
  | error => "error"
  end.

(** The state of a pass: the database and the [result] object that the
    pass fills in. *)
Record SyncState := mkState {
  world : World;
  result : SyncResult
}.

Definition MAX_RETRIES : Z := 3.

(** Truthiness of an optional flag and of an optional string. *)
Definition truthy (b : option bool) : bool := default false b.
Definition truthy_string (s : option string) : option string :=
  match s with
  | Some (String c r) => Some (String c r)
  | _ => None
  end.

(** [a > b] on time values, where [None] is [NaN]. *)
Definition time_gt (a b : option Z) : bool :=
  match a, b with
  | Some x, Some y => y <? x
  | _, _ => false
  end.

(** [queueItems.slice(i, j)] for [0 <= i <= j]. *)
Definition slice {A} (i j : nat) (l : list A) : list A := take (j - i) (drop i l).

(** The messages of the errors raised by the engine itself. *)
Definition RangeError_invalid_time : string := "Invalid time value".
Definition TypeError_undefined_updated_at : string :=
  "Cannot read properties of undefined (reading 'updated_at')".

Section SyncService.

Variable uuidv4 : nat -> string.
Variable Date_now : nat -> string.
(** SQLite's [CURRENT_TIMESTAMP] at a given reading. *)
Variable CURRENT_TIMESTAMP : nat -> string.
Variable JSON_stringify : PartialTask -> string.
(** [JSON.parse(text) as Task]: the task, or the message of the
    [SyntaxError]. *)
Variable JSON_parse : string -> string + Task.
(** [new Date(text).getTime()]; [None] is [NaN]. *)
Variable Date_getTime : string -> option Z.
(** The batch transmitter, [this.processBatch], at a given reading: the
    response, or the message of the error it throws.  It is the public
    method that stands for the exchange with the server; the pass is
    modelled for any transmitter, and the one the source ships is
    [processBatch_source] below. *)
Variable processBatch : nat -> list SyncQueueItem -> string + BatchSyncResponse.
(** [parseInt(process.env.SYNC_BATCH_SIZE || '10', 10)], for the
    settings that denote a natural number. *)
Variable SYNC_BATCH_SIZE : nat.

Definition read_timestamp (w : World) : string * World :=
  (CURRENT_TIMESTAMP (tick w), bump w).

Definition same_pair (taskId : string) (operation : Operation) (r : SyncQueueItem) : bool :=
  eqs (q_task_id r) taskId && eqs (q_operation r) (operation_name operation).

Definition addToSyncQueue (taskId : string) (operation : Operation)
    (data : PartialTask) (w : World) : World :=
  let serializedData := JSON_stringify data in
  let existing := sql_select (same_pair taskId operation) (sync_queue w) in
  if (0 <? length existing)%nat then
    let '(now, w1) := read_timestamp w in
    let set r :=
      {| q_id := q_id r;
         q_task_id := q_task_id r;
         q_operation := q_operation r;
         q_data := serializedData;
         q_created_at := q_created_at r;
         q_retry_count := 0;
         q_error_message := q_error_message r;
         q_status := q_status r;
         q_updated_at := Some now |} in
    with_queue (sql_update (same_pair taskId operation) set (sync_queue w1)) w1
  else
    let '(i, w1) := read_uuid uuidv4 w in
    let '(now, w2) := read_timestamp w1 in
    with_queue
      (sync_queue w2 ++
         [ {| q_id := i;
              q_task_id := taskId;
              q_operation := operation_name operation;
              q_data := serializedData;
              q_created_at := now;
              q_retry_count := 0;
              q_error_message := None;
              q_status := None;
              q_updated_at := None |} ])
      w2.

(** The transmitter as the source has it: one entry per item, each
    reporting success.  It reads [item.localId], a property that a queue
    row does not have, so every entry carries [undefined] there; and
    [item.data] is the serialized text, which has no [id] property. *)
Definition processBatch_source (items : list SyncQueueItem) : BatchSyncResponse :=
  {| results :=
       (fun item : SyncQueueItem =>
          {| r_localId := None;
             r_success := Some true;
             r_conflict := None;
             r_error := None;
             r_data := Some empty_partial;
             r_serverData := None |}) <$> items |}.

(** The winner is computed first; the call to [console.log] that
    follows formats both dates with [toISOString], which throws a
    [RangeError] on an invalid date. *)
Definition resolveConflict (localTask serverTask : Task) : outcome Task :=
  let localTime := Date_getTime (updated_at localTask) in
  let serverTime := Date_getTime (updated_at serverTask) in
  let winner := if time_gt serverTime localTime then serverTask else localTask in
  match localTime, serverTime with
  | Some _, Some _ => Returned winner
  | _, _ => Thrown RangeError_invalid_time
  end.

Definition updateSyncStatus (taskId : string) (status : SyncedOrError)
    (serverData : option PartialTask) (w : World) : World :=
  let new_server_id := truthy_string (serverData ≫= p_id) in
  let '(stamp, w1) :=
    match status with
    | synced => let '(now, w1) := read_timestamp w in (Some now, w1)
    | error => (None, w)
    end in
  let set r :=
    {| t_id := t_id r;
       t_title := t_title r;
       t_description := t_description r;
       t_completed := t_completed r;
       t_is_deleted := t_is_deleted r;
       t_sync_status := status_name status;
       t_created_at := t_created_at r;
       t_updated_at := t_updated_at r;
       t_last_synced_at :=
         match stamp with Some now => Some now | None => t_last_synced_at r end;
       t_server_id :=
         match new_server_id with Some s => Some s | None => t_server_id r end |} in
  with_tasks (sql_update (fun r => eqs (t_id r) taskId) set (tasks w1)) w1.

Definition handleSyncError (item : SyncQueueItem) (errorMessage : string)
    (w : World) : World :=
  let newRetryCount := q_retry_count item + 1 in
  let '(now, w1) := read_timestamp w in
  if MAX_RETRIES <=? newRetryCount then
    let set r :=
      {| q_id := q_id r;
         q_task_id := q_task_id r;
         q_operation := q_operation r;
         q_data := q_data r;
         q_created_at := q_created_at r;
         q_retry_count := newRetryCount;
         q_error_message := Some errorMessage;
         q_status := Some "failed";
         q_updated_at := Some now |} in
    let w2 := with_queue (sql_update (fun r => eqs (q_id r) (q_id item)) set (sync_queue w1)) w1 in
    updateSyncStatus (q_task_id item) error None w2
  else
    let set r :=
      {| q_id := q_id r;
         q_task_id := q_task_id r;
         q_operation := q_operation r;
         q_data := q_data r;
         q_created_at := q_created_at r;
         q_retry_count := newRetryCount;
         q_error_message := Some errorMessage;
         q_status := q_status r;
         q_updated_at := Some now |} in
    with_queue (sql_update (fun r => eqs (q_id r) (q_id item)) set (sync_queue w1)) w1.

(** [DELETE FROM sync_queue WHERE id = ?]. *)
Definition remove_item (item : SyncQueueItem) (w : World) : World :=
  with_queue (sql_delete (fun r => eqs (q_id r) (q_id item)) (sync_queue w)) w.

Definition incr_success (r : SyncResult) : SyncResult :=
  mkResult (S (success r)) (failed r) (conflicts r) (total r).
Definition incr_failed (r : SyncResult) : SyncResult :=
  mkResult (success r) (S (failed r)) (conflicts r) (total r).
Definition incr_conflicts (r : SyncResult) : SyncResult :=
  mkResult (success r) (failed r) (S (conflicts r)) (total r).

(** [batchResponse.results.find(r => r.localId === item.task_id)]. *)
Definition find_response (resp : BatchSyncResponse) (item : SyncQueueItem)
  : option ResponseItem :=
  List.find (fun r => bool_decide (r_localId r = Some (q_task_id item))) (results resp).

(** The error branch of the loop body. *)
Definition item_error (item : SyncQueueItem) (message : string) (st : SyncState) : SyncState :=
  {| world := handleSyncError item message (world st);
     result := incr_failed (result st) |}.

(** The body of the loop over the items of a batch.  [None] is normal
    completion, [Some m] an error thrown out of the body. *)
Definition process_item (resp : BatchSyncResponse) (item : SyncQueueItem)
    (st : SyncState) : option string * SyncState :=
  let responseItem := find_response resp item in
  if truthy (responseItem ≫= r_success) then
    let w1 := updateSyncStatus (q_task_id item) synced (responseItem ≫= r_data) (world st) in
    (None, {| world := remove_item item w1; result := incr_success (result st) |})
  else if truthy (responseItem ≫= r_conflict) then
    match JSON_parse (q_data item) with
    | inl m => (Some m, st)
    | inr localTask =>
        match responseItem ≫= r_serverData with
        | None => (Some TypeError_undefined_updated_at, st)
        | Some serverTask =>
            match resolveConflict localTask serverTask with
            | Thrown m => (Some m, st)
            | Returned resolvedTask =>
                let w1 := (updateTask Date_now (id resolvedTask)
                             (partial_of_task resolvedTask) (world st)).2 in
                let w2 := updateSyncStatus (q_task_id item) synced
                            (Some (partial_of_task resolvedTask)) w1 in
                (None, {| world := remove_item item w2;
                          result := incr_conflicts (result st) |})
            end
        end
    end
  else
    (None, item_error item (default "Unknown error" (truthy_string (responseItem ≫= r_error))) st).

Fixpoint process_items (resp : BatchSyncResponse) (batch : list SyncQueueItem)
    (st : SyncState) : option string * SyncState :=
  match batch with
  | [] => (None, st)
  | item :: rest =>
      match process_item resp item st with
      | (None, st1) => process_items resp rest st1
      | (Some m, st1) => (Some m, st1)
      end
  end.

(** The handler of the per-batch [try]: every item of the batch gets
    the error. *)
Definition fail_batch (message : string) (batch : list SyncQueueItem)
    (st : SyncState) : SyncState :=
  foldl (fun s item => item_error item message s) st batch.

(** One round of the loop over the batches. *)
Definition process_batch (st : SyncState) (batch : list SyncQueueItem) : SyncState :=
  let w := world st in
  let st1 := {| world := bump w; result := result st |} in
  match processBatch (tick w) batch with
  | inl m => fail_batch m batch st1
  | inr batchResponse =>
      match process_items batchResponse batch st1 with
      | (None, st2) => st2
      | (Some m, st2) => fail_batch m batch st2
      end
  end.

(** The loop that cuts the drained items into batches,
    [for (i = 0; i < length; i += SYNC_BATCH_SIZE)].  [None] stands for
    a loop that does not end; the fuel bounds the number of rounds. *)
Fixpoint batch_loop {A} (fuel : nat) (i : nat) (queueItems : list A)
  : option (list (list A)) :=
  if (i <? length queueItems)%nat then
    match fuel with
    | O => None
    | S fuel' =>
        cons (slice i (i + SYNC_BATCH_SIZE) queueItems)
          <$> batch_loop fuel' (i + SYNC_BATCH_SIZE) queueItems
    end
  else Some [].

(** With a positive batch size the loop makes at most [length] rounds,
    which is the fuel it gets. *)
Definition make_batches {A} (queueItems : list A) : option (list (list A)) :=
  batch_loop (length queueItems) 0 queueItems.

(** [SELECT * FROM sync_queue ORDER BY created_at ASC]. *)
Definition drain (w : World) : list SyncQueueItem :=
  order_by_asc q_created_at (sync_queue w).

Definition sync (w : World) : option (SyncResult * World) :=
  let queueItems := drain w in
  let result0 := mkResult 0 0 0 (length queueItems) in
  if (length queueItems =? 0)%nat then Some (result0, w)
  else
    batches ← make_batches queueItems;
    let st := foldl process_batch {| world := w; result := result0 |} batches in
    Some (result st, world st).

End SyncService.

(** ** The stub variant of the synchronisation service

    The first variant of services/syncService.ts: one request stands for
    the whole exchange, and the pass is all or nothing. *)

Record StubSyncResult := mkStubResult {
  stub_success : bool;
  synced_items : nat;
  failed_items : nat
}.

Section StubSync.

(** [axios.post] at a given reading: [true] when the request resolves,
    [false] when it rejects. *)
Variable axios_post : nat -> bool.

Definition sync_stub (w : World) : StubSyncResult * World :=
  let queueItems := drain w in
  let simulateFailure := negb (axios_post (tick w)) in
  let '(synced_count, failed_count, w') :=
    foldl
      (fun '(synced_count, failed_count, w1) (item : SyncQueueItem) =>
         if simulateFailure then (synced_count, S failed_count, w1)
         else (S synced_count, failed_count, remove_item item w1))
      (0%nat, 0%nat, bump w) queueItems in
  ({| stub_success := negb simulateFailure;
      synced_items := synced_count;
      failed_items := failed_count |}, w').

End StubSync.

(** ** The routes (routes/tasks.ts and routes/sync.ts)

    A field of a request body is any JavaScript value; the handlers tell
    strings, booleans and [undefined] from the rest.  A response is a
    status code with a body. *)

Inductive JsValue :=
  | JsUndefined
  | JsString (s : string)
  | JsBoolean (b : bool)
  | JsOther.

Inductive ResponseBody :=
  | ErrorBody (message : string)
  | TaskBody (task : Task)
  | TaskListBody (list_of_tasks : list Task)
  | SuccessBody
  | SyncBody (sync_result : SyncResult)
  | StatusBody (pendingSyncCount : nat) (lastSyncedAt : option string) (isConnected : bool).

Record Response := mkResponseOf {
  status_code : nat;
  body : ResponseBody
}.

(** [value !== undefined && typeof value !== 'string'], and the same for
    booleans. *)
Definition defined_non_string (v : JsValue) : bool :=
  match v with
  | JsUndefined | JsString _ => false
  | _ => true
  end.
Definition defined_non_boolean (v : JsValue) : bool :=
  match v with
  | JsUndefined | JsBoolean _ => false
  | _ => true
  end.

(** A validated field as a property of [Partial<Task>]. *)
Definition string_property (v : JsValue) : option string :=
  match v with JsString s => Some s | _ => None end.
Definition boolean_property (v : JsValue) : option bool :=
  match v with JsBoolean b => Some b | _ => None end.

Section TaskRoutes.

Variable uuidv4 : nat -> string.
Variable Date_now : nat -> string.
Variable CURRENT_TIMESTAMP : nat -> string.
Variable JSON_stringify : PartialTask -> string.

(** [GET /] and [GET /:id]. *)
Definition get_tasks (w : World) : Response :=
  mkResponseOf 200 (TaskListBody (getAllTasks w)).

Definition get_task (i : string) (w : World) : Response :=
  match getTask i w with
  | None => mkResponseOf 404 (ErrorBody "Task not found")
  | Some task => mkResponseOf 200 (TaskBody task)
  end.

(** [POST /].  The title is checked, the description is not: it is
    passed on as it comes.  The handler is modelled where the description
    is [undefined] or a string; on another value, which would end in the
    [description] column as it is, the model gives no answer ([None]). *)
Definition post_task (title description : JsValue) (w : World)
  : option (Response * World) :=
  match title with
  | JsString (String c rest) =>
      match description with
      | JsBoolean _ | JsOther => None
      | _ =>
          let taskData :=
            mkPartial None (Some (String c rest)) (string_property description)
              None None None None None None None in
          let '(newTask, w1) := createTask uuidv4 Date_now taskData w in
          let w2 := addToSyncQueue uuidv4 CURRENT_TIMESTAMP JSON_stringify
                      (id newTask) create (partial_of_task newTask) w1 in
          Some (mkResponseOf 201 (TaskBody newTask), w2)
      end
  | _ => Some (mkResponseOf 400 (ErrorBody "Title is required and must be a string"), w)
  end.

(** [PUT /:id]. *)
Definition put_task (i : string) (title description completed_flag : JsValue) (w : World)
  : Response * World :=
  if defined_non_string title then
    (mkResponseOf 400 (ErrorBody "Title must be a string"), w)
  else if defined_non_string description then
    (mkResponseOf 400 (ErrorBody "Description must be a string"), w)
  else if defined_non_boolean completed_flag then
    (mkResponseOf 400 (ErrorBody "Completed must be a boolean"), w)
  else
    let updates :=
      mkPartial None (string_property title) (string_property description)
        (boolean_property completed_flag) None None None None None None in
    match updateTask Date_now i updates w with
    | (None, w1) => (mkResponseOf 404 (ErrorBody "Task not found"), w1)
    | (Some updatedTask, w1) =>
        let w2 := addToSyncQueue uuidv4 CURRENT_TIMESTAMP JSON_stringify
                    (id updatedTask) update (partial_of_task updatedTask) w1 in
        (mkResponseOf 200 (TaskBody updatedTask), w2)
    end.

(** [DELETE /:id]. *)
Definition delete_task (i : string) (w : World) : Response * World :=
  match deleteTask Date_now i w with
  | (false, w1) => (mkResponseOf 404 (ErrorBody "Task not found"), w1)
  | (true, w1) =>
      let w2 := addToSyncQueue uuidv4 CURRENT_TIMESTAMP JSON_stringify
                  i delete empty_partial w1 in
      (mkResponseOf 200 SuccessBody, w2)
  end.

End TaskRoutes.

Section SyncRoutes.

Variable Date_now : nat -> string.
Variable CURRENT_TIMESTAMP : nat -> string.
Variable JSON_parse : string -> string + Task.
Variable Date_getTime : string -> option Z.
Variable processBatch : nat -> list SyncQueueItem -> string + BatchSyncResponse.
Variable SYNC_BATCH_SIZE : nat.
(** [axios.get] on the health endpoint at a given reading: [true] when
    the request resolves within the timeout. *)
Variable axios_get : nat -> bool.

Definition checkConnectivity (w : World) : bool * World :=
  (axios_get (tick w), bump w).

(** [POST /sync]; [None] when the pass does not end. *)
Definition post_sync (w : World) : option (Response * World) :=
  let '(hasConnectivity, w1) := checkConnectivity w in
  if hasConnectivity then
    '(sync_result, w2) ←
      sync Date_now CURRENT_TIMESTAMP JSON_parse Date_getTime processBatch SYNC_BATCH_SIZE w1;
    Some (mkResponseOf 200 (SyncBody sync_result), w2)
  else Some (mkResponseOf 503 (ErrorBody "Server is unreachable for sync"), w1).

(** [.sort()] on strings, ascending.  JavaScript compares code units;
    on the ASCII text that the clock of SQLite writes this is the
    byte-wise order used here. *)
Definition sort_strings (l : list string) : list string := merge_sort String.le l.

(** [GET /status]. *)
Definition get_status (w : World) : Response * World :=
  let pendingSyncCount := length (getTasksNeedingSync w) in
  let allTasks := getAllTasks w in
  let lastSyncedAt :=
    head (reverse (sort_strings
                     (omap (fun t => truthy_string (last_synced_at t)) allTasks))) in
  let '(isConnected, w1) := checkConnectivity w in
  (mkResponseOf 200 (StatusBody pendingSyncCount lastSyncedAt isConnected), w1).

End SyncRoutes.

(** ** A concrete environment for the examples

    The theorems below hold for every environment.  The examples need one:
    identifiers and clock readings numbered by the reading, a parser for
    the timestamp format that [toISOString] produces,
    [YYYY-MM-DDTHH:mm:ss.sssZ], and a serializer. *)

Module Sample.

Definition code (a : Ascii.ascii) : Z := Z.of_N (Ascii.N_of_ascii a).

Definition digit_of (a : Ascii.ascii) : option Z :=
  if (48 <=? code a) && (code a <=? 57) then Some (code a - 48) else None.

(** The number written at positions [pos .. pos + len - 1]. *)
Fixpoint number_at (s : string) (pos len : nat) (acc : Z) : option Z :=
  match len with
  | O => Some acc
  | S len' =>
      c ← String.get pos s;
      d ← digit_of c;
      number_at s (S pos) len' (acc * 10 + d)
  end.

Definition char_at (s : string) (pos : nat) (c : Z) : bool :=
  bool_decide (code <$> String.get pos s = Some c).

Definition leap (y : Z) : bool :=
  ((y mod 4 =? 0) && negb (y mod 100 =? 0)) || (y mod 400 =? 0).

Definition days_in_month (y m : Z) : Z :=
  if m =? 2 then (if leap y then 29 else 28)
  else if (m =? 4) || (m =? 6) || (m =? 9) || (m =? 11) then 30
  else 31.

(** Days from 1970-01-01 to the given date of the Gregorian calendar. *)
Definition days_from_civil (y m d : Z) : Z :=
  let y' := if m <=? 2 then y - 1 else y in
  let era := y' / 400 in
  let yoe := y' - era * 400 in
  let doy := (153 * (if 2 <? m then m - 3 else m + 9) + 2) / 5 + d - 1 in
  let doe := yoe * 365 + yoe / 4 - yoe / 100 + doy in
  era * 146097 + doe - 719468.

(** Milliseconds since the epoch; the separators are [-] (45), [T]
    (84), [:] (58), [.] (46) and [Z] (90). *)
Definition Date_getTime (s : string) : option Z :=
  if bool_decide (String.length s = 24%nat)
     && char_at s 4 45 && char_at s 7 45 && char_at s 10 84
     && char_at s 13 58 && char_at s 16 58 && char_at s 19 46
     && char_at s 23 90
  then
    y ← number_at s 0 4 0;
    m ← number_at s 5 2 0;
    d ← number_at s 8 2 0;
    h ← number_at s 11 2 0;
    mi ← number_at s 14 2 0;
    sec ← number_at s 17 2 0;
    ms ← number_at s 20 3 0;
    if (1 <=? m) && (m <=? 12) && (1 <=? d) && (d <=? days_in_month y m)
       && (h <=? 23) && (mi <=? 59) && (sec <=? 59)
    then Some ((((days_from_civil y m d * 24 + h) * 60 + mi) * 60 + sec) * 1000 + ms)
    else None
  else None.

Definition char (n : nat) : string := String (Ascii.ascii_of_nat n) EmptyString.

Definition two_digits (n : nat) : string :=
  char (48 + (n / 10) mod 10) +:+ char (48 + n mod 10).

(** The reading [n] of the JavaScript clock and of the SQLite clock is
    second [n] of minute 0 of 2024-01-01 (readings below 60). *)
Definition Date_now (n : nat) : string :=
  "2024-01-01T00:00:" +:+ two_digits n +:+ ".000Z".
Definition CURRENT_TIMESTAMP (n : nat) : string :=
  "2024-01-01 00:00:" +:+ two_digits n.
Definition uuidv4 (n : nat) : string :=
  "00000000-0000-4000-8000-0000000000" +:+ two_digits n.

(** [JSON.stringify] on a task object whose properties were created in
    the order of the interface: a property that is [undefined] is left
    out, and a string is quoted with the escapes of JSON. *)
Definition hex_digit (n : nat) : string :=
  char (if (n <? 10)%nat then 48 + n else 87 + n).

Definition escape_char (a : Ascii.ascii) : string :=
  let n := Ascii.nat_of_ascii a in
  if (n =? 34)%nat then char 92 +:+ char 34
  else if (n =? 92)%nat then char 92 +:+ char 92
  else if (n =? 8)%nat then char 92 +:+ "b"
  else if (n =? 9)%nat then char 92 +:+ "t"
  else if (n =? 10)%nat then char 92 +:+ "n"
  else if (n =? 12)%nat then char 92 +:+ "f"
  else if (n =? 13)%nat then char 92 +:+ "r"
  else if (n <? 32)%nat then char 92 +:+ "u00" +:+ hex_digit (n / 16) +:+ hex_digit (n mod 16)
  else String a EmptyString.

Fixpoint escape (s : string) : string :=
  match s with
  | EmptyString => EmptyString
  | String a r => escape_char a +:+ escape r
  end.

Definition quote (s : string) : string := char 34 +:+ escape s +:+ char 34.

Definition json_bool (b : bool) : string := if b then "true" else "false".
Definition json_nullable (s : option string) : string :=
  match s with Some x => quote x | None => "null" end.

Definition property {A} (key : string) (show : A -> string) (v : option A) : list string :=
  match v with
  | Some x => [quote key +:+ ":" +:+ show x]
  | None => []
  end.

Fixpoint join (sep : string) (l : list string) : string :=
  match l with
  | [] => EmptyString
  | [x] => x
  | x :: r => x +:+ sep +:+ join sep r
  end.

Definition JSON_stringify (d : PartialTask) : string :=
  "{" +:+
  join ","
    (property "id" quote (p_id d) ++
     property "title" quote (p_title d) ++
     property "description" quote (p_description d) ++
     property "completed" json_bool (p_completed d) ++
     property "is_deleted" json_bool (p_is_deleted d) ++
     property "sync_status" quote (p_sync_status d) ++
     property "created_at" quote (p_created_at d) ++
     property "updated_at" quote (p_updated_at d) ++
     property "last_synced_at" json_nullable (p_last_synced_at d) ++
     property "server_id" json_nullable (p_server_id d))
  +:+ "}".

(** The parser of the examples answers on the serialized form of the
    tasks listed in [known], which are the payloads the examples put in
    the queue. *)
Definition JSON_parse (known : list Task) (text : string) : string + Task :=
  match List.find (fun t => eqs (JSON_stringify (partial_of_task t)) text) known with
  | Some t => inr t
  | None => inl "Unexpected token"
  end.

End Sample.

(** ** The data of the examples *)

Module Examples.

Definition local_version : Task :=
  mkTask "t1" "edited offline" "d" false false "pending"
    "2024-01-01T00:00:00.000Z" "2024-03-05T10:00:00.000Z" None None.

Definition remote_same_instant : Task :=
  mkTask "t1" "edited on the server" "d" true false "synced"
    "2024-01-01T00:00:00.000Z" "2024-03-05T10:00:00.000Z" None (Some "srv-1").

Definition remote_later : Task :=
  mkTask "t1" "edited on the server" "d" true false "synced"
    "2024-01-01T00:00:00.000Z" "2024-03-05T10:00:00.001Z" None (Some "srv-1").

Definition empty_world : World := mkWorld [] [] 0.

(** One task, created through the service. *)
Definition titled (s : string) : PartialTask :=
  mkPartial None (Some s) None None None None None None None None.

Definition one_task : World :=
  (createTask Sample.uuidv4 Sample.Date_now (titled "A") empty_world).2.

Definition T1 : string := Sample.uuidv4 0.

Definition task1 : Task :=
  (createTask Sample.uuidv4 Sample.Date_now (titled "A") empty_world).1.

Definition enqueue : string -> Operation -> PartialTask -> World -> World :=
  addToSyncQueue Sample.uuidv4 Sample.CURRENT_TIMESTAMP Sample.JSON_stringify.

(** The task created and its creation queued, as the route does. *)
Definition queued : World := enqueue T1 create (partial_of_task task1) one_task.

Definition create_item : SyncQueueItem :=
  mkItem (Sample.uuidv4 2) T1 "create" (Sample.JSON_stringify (partial_of_task task1))
    (Sample.CURRENT_TIMESTAMP 3) 0 None None None.

(** Three transmitters: one that acknowledges every item and assigns a
    server identifier, one that cannot reach the server, one whose
    response has no entries. *)
Definition acknowledge (item : SyncQueueItem) : ResponseItem :=
  mkResponse (Some (q_task_id item)) (Some true) None None
    (Some (mkPartial (Some ("srv-" +:+ q_task_id item)) None None None None None None None
             None None))
    None.

Definition accept_all (_ : nat) (items : list SyncQueueItem) : string + BatchSyncResponse :=
  inr {| results := acknowledge <$> items |}.

Definition network_down (_ : nat) (_ : list SyncQueueItem) : string + BatchSyncResponse :=
  inl "Network Error".

Definition silent (_ : nat) (_ : list SyncQueueItem) : string + BatchSyncResponse :=
  inr {| results := [] |}.

(** A transmitter that reports a conflict for every item, with the given
    server version. *)
Definition conflicting (serverTask : Task) (_ : nat) (items : list SyncQueueItem)
  : string + BatchSyncResponse :=
  inr {| results :=
           (fun item : SyncQueueItem =>
              mkResponse (Some (q_task_id item)) None (Some true) None None (Some serverTask))
             <$> items |}.

(** The server's version of the first task, modified at the given time. *)
Definition server_version (modified : string) : Task :=
  mkTask T1 "A, as the server has it" "d" true false "synced"
    "2024-01-01T00:00:01.000Z" modified None None.

Definition pass (transmitter : nat -> list SyncQueueItem -> string + BatchSyncResponse)
    (batch_size : nat) : World -> option (SyncResult * World) :=
  sync Sample.Date_now Sample.CURRENT_TIMESTAMP (Sample.JSON_parse [task1])
    Sample.Date_getTime transmitter batch_size.

(** Twenty-five queued changes of twenty-five tasks, enqueued one second
    apart and stored newest first. *)
Definition numbered (n : nat) : SyncQueueItem :=
  mkItem ("q" +:+ Sample.two_digits n) ("task" +:+ Sample.two_digits n) "update" "{}"
    (Sample.CURRENT_TIMESTAMP n) 0 None None None.

Definition backlog : World := mkWorld [] (numbered <$> reverse (seq 0 25)) 30.

(** The world after [n] passes under a given transmitter; a pass that
    does not end leaves the world as it was. *)
Fixpoint after_passes
    (transmitter : nat -> list SyncQueueItem -> string + BatchSyncResponse)
    (n : nat) (w : World) : World :=
  match n with
  | O => w
  | S n' =>
      let w' := after_passes transmitter n' w in
      match pass transmitter 10 w' with
      | Some (_, w'') => w''
      | None => w'
      end
  end.


(** The queue item of the first task after two failed passes, as the
    third pass drains it. *)
Definition twice_failed_item : SyncQueueItem :=
  mkItem (Sample.uuidv4 2) T1 "create" (Sample.JSON_stringify (partial_of_task task1))
    (Sample.CURRENT_TIMESTAMP 3) 2 (Some "Network Error") None
    (Some (Sample.CURRENT_TIMESTAMP 7)).

(** Two queued changes of two tasks; the payload of the second is cut
    short and does not parse. *)
Definition good_item : SyncQueueItem := numbered 1.
Definition broken_item : SyncQueueItem :=
  mkItem "q02" "task02" "update" "{title:" (Sample.CURRENT_TIMESTAMP 2) 0 None None None.
Definition two_queued : World := mkWorld [] [good_item; broken_item] 5.

(** A response that acknowledges the first of the two and reports a
    conflict for the second. *)
Definition mixed_response : BatchSyncResponse :=
  {| results :=
       [ acknowledge good_item;
         mkResponse (Some "task02") None (Some true) None None
           (Some (server_version "2024-01-01T00:00:01.001Z")) ] |}.
Definition mixed (_ : nat) (_ : list SyncQueueItem) : string + BatchSyncResponse :=
  inr mixed_response.

(** The entry of a conflict on the first task. *)
Definition conflict_entry : ResponseItem :=
  mkResponse (Some T1) None (Some true) None None
    (Some (server_version "2024-01-01T00:00:01.001Z")).

Definition probe_down (_ : nat) : bool := false.

End Examples.

(** ** Notions used to state the properties *)

(** What a caller's object keeps when only [title] and [description] are
    read from it. *)
Definition title_and_description (d : PartialTask) : PartialTask :=
  mkPartial None (p_title d) (p_description d) None None None None None None None.

(** The condition of the SELECT statement of [getTask]. *)
Definition live (i : string) (r : TaskRow) : bool :=
  eqs (t_id r) i && (t_is_deleted r =? 0)%Z.

(** The key on which the queue is upserted, and the invariant of the
    data model: no two queue items share it. *)
Definition pair_key (r : SyncQueueItem) : string * string :=
  (q_task_id r, q_operation r).

Definition one_per_pair (queue : list SyncQueueItem) : Prop :=
  NoDup (pair_key <$> queue).

(** The SET clause of the UPDATE statement of [addToSyncQueue]. *)
Definition overwrite (serializedData : string) (now : string) (r : SyncQueueItem)
  : SyncQueueItem :=
  mkItem (q_id r) (q_task_id r) (q_operation r) serializedData
    (q_created_at r) 0 (q_error_message r) (q_status r) (Some now).

(** The order of the drain: by [created_at], oldest first. *)
Definition enqueued_before (a b : SyncQueueItem) : Prop :=
  String.le (q_created_at a) (q_created_at b).

(** The worlds the two services can bring about, starting from empty
    tables: tasks are created, updated and deleted, changes are queued,
    and passes run, each with a transmitter and a batch size of its own. *)
Section Reachable.

Variable uuidv4 : nat -> string.
Variable Date_now : nat -> string.
Variable CURRENT_TIMESTAMP : nat -> string.
Variable JSON_stringify : PartialTask -> string.
Variable JSON_parse : string -> string + Task.
Variable Date_getTime : string -> option Z.

Inductive reachable : World -> Prop :=
  | reach_start (n : nat) : reachable (mkWorld [] [] n)
  | reach_createTask (taskData : PartialTask) (w : World) :
      reachable w -> reachable (createTask uuidv4 Date_now taskData w).2
  | reach_updateTask (i : string) (updates : PartialTask) (w : World) :
      reachable w -> reachable (updateTask Date_now i updates w).2
  | reach_deleteTask (i : string) (w : World) :
      reachable w -> reachable (deleteTask Date_now i w).2
  | reach_addToSyncQueue (taskId : string) (operation : Operation) (data : PartialTask)
      (w : World) :
      reachable w ->
      reachable (addToSyncQueue uuidv4 CURRENT_TIMESTAMP JSON_stringify taskId operation data w)
  | reach_sync (processBatch : nat -> list SyncQueueItem -> string + BatchSyncResponse)
      (SYNC_BATCH_SIZE : nat) (w : World) (r : SyncResult) (w' : World) :
      reachable w ->
      sync Date_now CURRENT_TIMESTAMP JSON_parse Date_getTime processBatch SYNC_BATCH_SIZE w
      = Some (r, w') ->
      reachable w'.

End Reachable.

(** The orders of the two listings of tasks. *)
Definition newest_first (a b : Task) : Prop :=
  String.le (created_at b) (created_at a).
Definition least_recently_updated_first (a b : Task) : Prop :=
  String.le (updated_at a) (updated_at b).

(** The columns of a task row that hold what the user entered and when
    the row was created. *)
Definition task_data (r : TaskRow) : string * string * string * Z * string :=
  (t_id r, t_title r, t_description r, t_completed r, t_created_at r).

(** What the server has told about a task. *)
Definition sync_marks (r : TaskRow) : option string * option string :=
  (t_last_synced_at r, t_server_id r).

(** What the upsert and the retry bookkeeping never change in a queue
    item. *)
Definition item_identity (q : SyncQueueItem) : string * string * string * string :=
  (q_id q, q_task_id q, q_operation q, q_created_at q).

(** The number of outcomes a result counts. *)
Definition counted (r : SyncResult) : nat :=
  (success r + failed r + conflicts r)%nat.

(** A transmitter that never reports a conflict. *)
Definition no_conflicts
    (processBatch : nat -> list SyncQueueItem -> string + BatchSyncResponse) : Prop :=
  forall n batch resp,
    processBatch n batch = inr resp ->
    Forall (fun entry => truthy (r_conflict entry) = false) (results resp).

(** The columns of a queue item that only [addToSyncQueue] writes. *)
Definition item_content (q : SyncQueueItem) : string * string * string * string * string :=
  (q_id q, q_task_id q, q_operation q, q_data q, q_created_at q).

(** What a pass may do to the tables: drop queue items, and nothing else
    to the content and the order of the queue; add or remove no task
    row. *)
Definition pass_frame (w w' : World) : Prop :=
  item_content <$> sync_queue w' `sublist_of` item_content <$> sync_queue w /\
  t_id <$> tasks w' = t_id <$> tasks w.

(** * Properties *)

(** ** The conflict resolver *)

Section ResolveConflict.

Variable Date_getTime : string -> option Z.

Lemma resolveConflict_valid_dates (localTask serverTask : Task) (tl ts : Z) :
  Date_getTime (updated_at localTask) = Some tl ->
  Date_getTime (updated_at serverTask) = Some ts ->
  resolveConflict Date_getTime localTask serverTask
  = Returned (if tl <? ts then serverTask else localTask).
Proof.
  intros Hl Hs. unfold resolveConflict. rewrite Hl, Hs. reflexivity.
Qed.

(** An invalid date on either side makes the call throw. *)
Lemma resolveConflict_invalid_date (localTask serverTask : Task) :
  Date_getTime (updated_at localTask) = None \/
  Date_getTime (updated_at serverTask) = None ->
  resolveConflict Date_getTime localTask serverTask = Thrown RangeError_invalid_time.
Proof.
  unfold resolveConflict.
  intros [H | H]; rewrite H; [reflexivity|].
  destruct (Date_getTime (updated_at localTask)); reflexivity.
Qed.

End ResolveConflict.

(** C1, as the code has it: with both timestamps valid, [resolveConflict]
    returns the server version when the local timestamp is strictly
    earlier, and the local version when it is strictly later or when the
    two are the same millisecond. *)
Theorem resolveConflict_last_write_wins
    (Date_getTime : string -> option Z) (localTask serverTask : Task) (tl ts : Z) :
  Date_getTime (updated_at localTask) = Some tl ->
  Date_getTime (updated_at serverTask) = Some ts ->
  (tl < ts -> resolveConflict Date_getTime localTask serverTask = Returned serverTask) /\
  (ts < tl -> resolveConflict Date_getTime localTask serverTask = Returned localTask) /\
  (tl = ts -> resolveConflict Date_getTime localTask serverTask = Returned localTask).
Proof.
  intros Hl Hs.
  rewrite (resolveConflict_valid_dates _ _ _ _ _ Hl Hs).
  repeat split; intros H.
  - apply Z.ltb_lt in H. rewrite H. reflexivity.
  - destruct (Z.ltb_spec tl ts); [lia | reflexivity].
  - destruct (Z.ltb_spec tl ts); [lia | reflexivity].
Qed.

Lemma resolveConflict_last_write_wins_witness :
  (1709632800000 < 1709632800001 ->
   resolveConflict Sample.Date_getTime Examples.local_version Examples.remote_later
   = Returned Examples.remote_later) /\
  (1709632800001 < 1709632800000 ->
   resolveConflict Sample.Date_getTime Examples.local_version Examples.remote_later
   = Returned Examples.local_version) /\
  (1709632800000 = 1709632800001 ->
   resolveConflict Sample.Date_getTime Examples.local_version Examples.remote_later
   = Returned Examples.local_version).
Proof.
  apply (resolveConflict_last_write_wins Sample.Date_getTime
           Examples.local_version Examples.remote_later
           1709632800000 1709632800001); vm_compute; reflexivity.
Defined.

(** C1 as stated fails on a tie: two versions modified in the same
    millisecond resolve to the local one, which is not the remote one. *)
Lemma resolveConflict_tie_keeps_local :
  Sample.Date_getTime (updated_at Examples.local_version) = Some 1709632800000 /\
  Sample.Date_getTime (updated_at Examples.remote_same_instant) = Some 1709632800000 /\
  resolveConflict Sample.Date_getTime Examples.local_version Examples.remote_same_instant
  = Returned Examples.local_version /\
  resolveConflict Sample.Date_getTime Examples.local_version Examples.remote_same_instant
  <> Returned Examples.remote_same_instant.
Proof.
  repeat split; try (vm_compute; reflexivity).
  vm_compute. discriminate.
Qed.

(** ** The task service *)

Lemma mapRowToTask_row_of_task (t : Task) : mapRowToTask (row_of_task t) = t.
Proof. destruct t as [? ? ? [] [] ? ? ? ? ?]; reflexivity. Qed.

(** C9: whatever the caller passes, the task that [createTask] returns is
    not completed, not deleted, pending, never synced, without server
    identifier, and created and updated at the same instant; its
    identifier is the fresh one; the row appended to the table is that
    task; and nothing but the title and the description of the argument is
    read, so that a [completed] flag or an [id] in it is ignored. *)
Theorem createTask_initial_state
    (uuidv4 Date_now : nat -> string) (taskData : PartialTask) (w : World) :
  let task := (createTask uuidv4 Date_now taskData w).1 in
  let w' := (createTask uuidv4 Date_now taskData w).2 in
  completed task = false /\
  is_deleted task = false /\
  sync_status task = "pending" /\
  last_synced_at task = None /\
  server_id task = None /\
  created_at task = updated_at task /\
  id task = uuidv4 (tick w) /\
  title task = or_empty (p_title taskData) /\
  description task = or_empty (p_description taskData) /\
  tasks w' = tasks w ++ [row_of_task task] /\
  mapRowToTask (row_of_task task) = task /\
  t_completed (row_of_task task) = 0%Z /\
  t_is_deleted (row_of_task task) = 0%Z /\
  sync_queue w' = sync_queue w /\
  createTask uuidv4 Date_now taskData w
  = createTask uuidv4 Date_now (title_and_description taskData) w.
Proof.
  cbn. repeat split.
Qed.

Section SoftDelete.

Variable Date_now : nat -> string.

Lemma getTask_select (i : string) (w : World) :
  getTask i w = mapRowToTask <$> head (sql_select (live i) (tasks w)).
Proof. reflexivity. Qed.

(** An UPDATE that marks the rows of an identifier deleted and keeps
    their identifier leaves no live row for it. *)
Lemma no_live_row_after_mark (i : string) (set : TaskRow -> TaskRow)
    (rows : list TaskRow) :
  (forall r, t_id (set r) = t_id r) ->
  (forall r, t_is_deleted (set r) = 1%Z) ->
  sql_select (live i) (sql_update (fun r => eqs (t_id r) i) set rows) = [].
Proof.
  intros Hid Hdel. induction rows as [|r rows IH]; [reflexivity|].
  cbn. fold (sql_update (fun r => eqs (t_id r) i) set rows).
  fold (sql_select (live i)
          (sql_update (fun r => eqs (t_id r) i) set rows)).
  rewrite IH. unfold live at 1.
  destruct (eqs (t_id r) i) eqn:E.
  - rewrite Hid, E, Hdel. reflexivity.
  - rewrite E. reflexivity.
Qed.

Lemma deleteTask_true_inv (i : string) (w w' : World) :
  deleteTask Date_now i w = (true, w') ->
  sql_select (live i) (tasks w') = [].
Proof.
  unfold deleteTask. destruct (getTask i w); [|discriminate].
  cbn. intros [= <-]. cbn. apply no_live_row_after_mark; reflexivity.
Qed.

Lemma getTask_none_of_no_live (i : string) (w : World) :
  sql_select (live i) (tasks w) = [] -> getTask i w = None.
Proof. intros H. rewrite getTask_select, H. reflexivity. Qed.

Lemma getAllTasks_live (w : World) (t : Task) :
  t ∈ getAllTasks w ->
  exists r, r ∈ tasks w /\ t_is_deleted r = 0%Z /\ t = mapRowToTask r.
Proof.
  unfold getAllTasks. intros H.
  apply list_elem_of_fmap in H as (r & -> & Hr).
  unfold order_by_desc in Hr. rewrite merge_sort_Permutation in Hr.
  apply list_elem_of_In, filter_In in Hr as [Hin Hdel].
  exists r. repeat split; [by apply list_elem_of_In | by apply Z.eqb_eq].
Qed.

Lemma no_live_row_spec (i : string) (rows : list TaskRow) (r : TaskRow) :
  sql_select (live i) rows = [] -> r ∈ rows -> t_is_deleted r = 0%Z -> t_id r <> i.
Proof.
  intros Hsel Hin Hdel Hid.
  assert (In r (sql_select (live i) rows)) as HIn.
  { apply filter_In. split; [by apply list_elem_of_In|].
    unfold live, eqs. rewrite Hdel, bool_decide_eq_true_2; done. }
  rewrite Hsel in HIn. destruct HIn.
Qed.

End SoftDelete.

(** C10: once [deleteTask] has returned [true] for an identifier,
    [getTask] finds nothing for it, [getAllTasks] lists no task with it,
    [updateTask] returns [null] and changes nothing, and a second
    [deleteTask] returns [false] and changes nothing. *)
Theorem deleteTask_hides_task
    (Date_now : nat -> string) (i : string) (w w' : World) :
  deleteTask Date_now i w = (true, w') ->
  getTask i w' = None /\
  (forall t, t ∈ getAllTasks w' -> id t <> i) /\
  (forall updates, updateTask Date_now i updates w' = (None, w')) /\
  deleteTask Date_now i w' = (false, w').
Proof.
  intros Hdel. apply deleteTask_true_inv in Hdel.
  pose proof (getTask_none_of_no_live i w' Hdel) as Hget.
  split; [exact Hget|]. split; [|split].
  - intros t Ht. apply getAllTasks_live in Ht as (r & Hin & Hlive & ->).
    cbn. eapply no_live_row_spec; eauto.
  - intros updates. unfold updateTask. rewrite Hget. reflexivity.
  - unfold deleteTask. rewrite Hget. reflexivity.
Qed.

Lemma deleteTask_hides_task_witness :
  getTask Examples.T1 (deleteTask Sample.Date_now Examples.T1 Examples.one_task).2 = None /\
  (forall t,
      t ∈ getAllTasks (deleteTask Sample.Date_now Examples.T1 Examples.one_task).2 ->
      id t <> Examples.T1) /\
  (forall updates,
      updateTask Sample.Date_now Examples.T1 updates
        (deleteTask Sample.Date_now Examples.T1 Examples.one_task).2
      = (None, (deleteTask Sample.Date_now Examples.T1 Examples.one_task).2)) /\
  deleteTask Sample.Date_now Examples.T1
    (deleteTask Sample.Date_now Examples.T1 Examples.one_task).2
  = (false, (deleteTask Sample.Date_now Examples.T1 Examples.one_task).2).
Proof.
  apply (deleteTask_hides_task Sample.Date_now Examples.T1 Examples.one_task).
  vm_compute. reflexivity.
Defined.

(** ** The queue upsert *)

Section Upsert.

Variable uuidv4 : nat -> string.
Variable CURRENT_TIMESTAMP : nat -> string.
Variable JSON_stringify : PartialTask -> string.

Local Abbreviation enqueue := (addToSyncQueue uuidv4 CURRENT_TIMESTAMP JSON_stringify).

Lemma same_pair_key (taskId : string) (operation : Operation) (r : SyncQueueItem) :
  same_pair taskId operation r = true <-> pair_key r = (taskId, operation_name operation).
Proof.
  unfold same_pair, pair_key, eqs. rewrite andb_true_iff, !bool_decide_eq_true.
  split; [intros [-> ->]; reflexivity | intros [= -> ->]; done].
Qed.

Lemma keys_sql_update (cond : SyncQueueItem -> bool) (set : SyncQueueItem -> SyncQueueItem)
    (queue : list SyncQueueItem) :
  (forall r, pair_key (set r) = pair_key r) ->
  pair_key <$> sql_update cond set queue = pair_key <$> queue.
Proof.
  intros Hset. unfold sql_update. rewrite <- list_fmap_compose.
  apply list_fmap_ext. intros _ r _. cbn. destruct (cond r); [apply Hset | reflexivity].
Qed.

Lemma select_sql_update (cond : SyncQueueItem -> bool) (set : SyncQueueItem -> SyncQueueItem)
    (queue : list SyncQueueItem) :
  (forall r, cond (set r) = cond r) ->
  sql_select cond (sql_update cond set queue) = set <$> sql_select cond queue.
Proof.
  intros Hset. induction queue as [|r queue IH]; [reflexivity|].
  cbn. fold (sql_update cond set queue).
  fold (sql_select cond (sql_update cond set queue)).
  fold (sql_select cond queue).
  destruct (cond r) eqn:E.
  - rewrite Hset, E. cbn. by rewrite IH.
  - rewrite E. exact IH.
Qed.

Lemma select_nil_iff (taskId : string) (operation : Operation)
    (queue : list SyncQueueItem) :
  sql_select (same_pair taskId operation) queue = [] <->
  (taskId, operation_name operation) ∉ pair_key <$> queue.
Proof.
  induction queue as [|r queue IH]; cbn.
  - split; [intros _; apply not_elem_of_nil | done].
  - fold (sql_select (same_pair taskId operation) queue).
    rewrite not_elem_of_cons.
    destruct (same_pair taskId operation r) eqn:E.
    + apply same_pair_key in E. split; [done | intros [H _]; by rewrite E in H].
    + rewrite IH. split; [|tauto]. intros H. split; [|done].
      intros Hk. symmetry in Hk. apply same_pair_key in Hk. congruence.
Qed.

Lemma select_at_most_one (taskId : string) (operation : Operation)
    (queue : list SyncQueueItem) :
  one_per_pair queue ->
  (length (sql_select (same_pair taskId operation) queue) <= 1)%nat.
Proof.
  unfold one_per_pair. induction queue as [|r queue IH]; cbn; [lia|].
  fold (sql_select (same_pair taskId operation) queue).
  rewrite NoDup_cons. intros [Hnotin Hnd].
  destruct (same_pair taskId operation r) eqn:E; [|by apply IH].
  apply same_pair_key in E. rewrite E in Hnotin.
  apply select_nil_iff in Hnotin. rewrite Hnotin. cbn. lia.
Qed.

(** The two branches of [addToSyncQueue]. *)
Lemma enqueue_existing (taskId : string) (operation : Operation) (data : PartialTask)
    (w : World) :
  sql_select (same_pair taskId operation) (sync_queue w) <> [] ->
  enqueue taskId operation data w
  = with_queue
      (sql_update (same_pair taskId operation)
         (overwrite (JSON_stringify data)
            (CURRENT_TIMESTAMP (tick w))) (sync_queue w))
      (bump w).
Proof.
  intros H. unfold addToSyncQueue.
  destruct (sql_select (same_pair taskId operation) (sync_queue w)); [done|].
  reflexivity.
Qed.

Lemma enqueue_fresh (taskId : string) (operation : Operation) (data : PartialTask)
    (w : World) :
  sql_select (same_pair taskId operation) (sync_queue w) = [] ->
  enqueue taskId operation data w
  = with_queue
      (sync_queue w ++
         [mkItem (uuidv4 (tick w)) taskId (operation_name operation)
            (JSON_stringify data) (CURRENT_TIMESTAMP (S (tick w))) 0 None None None])
      (bump (bump w)).
Proof.
  intros H. unfold addToSyncQueue. rewrite H. reflexivity.
Qed.

Lemma same_pair_overwrite (taskId : string) (operation : Operation)
    (data : string) (now : string) (r : SyncQueueItem) :
  same_pair taskId operation (overwrite data now r) = same_pair taskId operation r.
Proof. reflexivity. Qed.

(** After a call, the pair has an item, every item of the pair carries
    the payload of the call with a retry count of zero, and their number
    is what it was, or one if there was none. *)
Lemma enqueue_select (taskId : string) (operation : Operation) (data : PartialTask)
    (w : World) :
  let before := sql_select (same_pair taskId operation) (sync_queue w) in
  let after := sql_select (same_pair taskId operation)
                 (sync_queue (enqueue taskId operation data w)) in
  after <> [] /\
  Forall (fun r => q_data r = JSON_stringify data /\ q_retry_count r = 0%Z) after /\
  length after = Nat.max 1 (length before).
Proof.
  cbn zeta.
  destruct (sql_select (same_pair taskId operation) (sync_queue w)) as [|r0 l] eqn:E.
  - rewrite enqueue_fresh by exact E. cbn [sync_queue with_queue bump].
    unfold sql_select. rewrite List.filter_app.
    fold (sql_select (same_pair taskId operation) (sync_queue w)). rewrite E.
    cbn. unfold same_pair, eqs; cbn.
    rewrite !bool_decide_eq_true_2 by done. cbn.
    repeat split; [done | by repeat constructor].
  - assert (sql_select (same_pair taskId operation) (sync_queue w) <> []) as Hne
        by (rewrite E; done).
    rewrite enqueue_existing by exact Hne. cbn [sync_queue with_queue bump].
    rewrite select_sql_update by (intros; apply same_pair_overwrite).
    rewrite E. repeat split.
    + done.
    + apply Forall_fmap, Forall_forall. intros; cbn; done.
    + rewrite length_fmap. cbn. lia.
Qed.

Lemma enqueue_one_per_pair (taskId : string) (operation : Operation) (data : PartialTask)
    (w : World) :
  one_per_pair (sync_queue w) ->
  one_per_pair (sync_queue (enqueue taskId operation data w)).
Proof.
  unfold one_per_pair. intros Hnd.
  destruct (sql_select (same_pair taskId operation) (sync_queue w)) as [|r0 l] eqn:E.
  - rewrite enqueue_fresh by exact E. cbn [sync_queue with_queue bump].
    rewrite fmap_app. apply NoDup_app. repeat split; [exact Hnd | | apply NoDup_singleton].
    intros k Hk Hk'. cbn in Hk'. apply list_elem_of_singleton in Hk'. subst k.
    apply select_nil_iff in E. contradiction.
  - rewrite enqueue_existing by (rewrite E; done). cbn [sync_queue with_queue bump].
    rewrite keys_sql_update by reflexivity. exact Hnd.
Qed.

End Upsert.

(** C3: on a queue that holds no two items for one (task id, operation)
    pair, two calls of [addToSyncQueue] for the same pair leave exactly
    one item for it, with the serialized argument of the second call as
    payload and a retry count of zero, and the queue still holds no two
    items for one pair. *)
Theorem addToSyncQueue_idempotent_upsert
    (uuidv4 CURRENT_TIMESTAMP : nat -> string) (JSON_stringify : PartialTask -> string)
    (taskId : string) (operation : Operation) (first latest : PartialTask) (w : World) :
  one_per_pair (sync_queue w) ->
  let w2 :=
    addToSyncQueue uuidv4 CURRENT_TIMESTAMP JSON_stringify taskId operation latest
      (addToSyncQueue uuidv4 CURRENT_TIMESTAMP JSON_stringify taskId operation first w) in
  (exists item,
      sql_select (same_pair taskId operation) (sync_queue w2) = [item] /\
      q_data item = JSON_stringify latest /\
      q_retry_count item = 0%Z) /\
  one_per_pair (sync_queue w2).
Proof.
  intros Hinv w2.
  assert (one_per_pair (sync_queue w2)) as Hinv2
      by (do 2 apply enqueue_one_per_pair; exact Hinv).
  split; [|exact Hinv2].
  pose proof (enqueue_select uuidv4 CURRENT_TIMESTAMP JSON_stringify taskId operation latest
                (addToSyncQueue uuidv4 CURRENT_TIMESTAMP JSON_stringify taskId operation first w))
    as (Hne & Hall & _).
  pose proof (select_at_most_one taskId operation _ Hinv2) as Hlen.
  fold w2 in Hne, Hall.
  destruct (sql_select (same_pair taskId operation) (sync_queue w2)) as [|item [|? ?]];
    [done | | cbn in Hlen; lia].
  exists item. apply Forall_singleton in Hall as [? ?]. done.
Qed.

(** ** Draining and batching *)

Section Batching.

Variable SYNC_BATCH_SIZE : nat.
Hypothesis positive_batch_size : (0 < SYNC_BATCH_SIZE)%nat.

(** With enough fuel the loop ends, and its batches are the consecutive
    pieces of what is left of the list from index [i] on. *)
Lemma batch_loop_spec {A} (fuel i : nat) (queueItems : list A) :
  (length queueItems - i <= fuel)%nat ->
  exists batches,
    batch_loop SYNC_BATCH_SIZE fuel i queueItems = Some batches /\
    concat batches = drop i queueItems /\
    Forall (fun b => (0 < length b <= SYNC_BATCH_SIZE)%nat) batches /\
    (length batches * SYNC_BATCH_SIZE < length queueItems - i + SYNC_BATCH_SIZE)%nat /\
    (length queueItems - i <= length batches * SYNC_BATCH_SIZE)%nat.
Proof.
  revert i. induction fuel as [|fuel IH]; intros i Hfuel.
  - exists []. cbn [batch_loop]. destruct (Nat.ltb_spec i (length queueItems)); [lia|].
    rewrite drop_ge by lia. repeat split; [constructor | cbn; lia | cbn; lia].
  - cbn [batch_loop]. destruct (Nat.ltb_spec i (length queueItems)) as [Hlt | Hge].
    + destruct (IH (i + SYNC_BATCH_SIZE)%nat) as (bs & -> & Hcat & Hall & Hup & Hlow); [lia|].
      exists (slice i (i + SYNC_BATCH_SIZE) queueItems :: bs).
      unfold slice. replace (i + SYNC_BATCH_SIZE - i)%nat with SYNC_BATCH_SIZE by lia.
      repeat split.
      * cbn. rewrite Hcat, <- drop_drop. apply take_drop.
      * constructor; [|exact Hall]. rewrite length_take, length_drop. lia.
      * cbn [length].
        destruct (Nat.le_gt_cases (i + SYNC_BATCH_SIZE) (length queueItems)); [lia|].
        replace (length queueItems - (i + SYNC_BATCH_SIZE))%nat with 0%nat in Hup by lia.
        assert (length bs = 0)%nat as -> by nia. lia.
      * cbn [length]. lia.
    + exists []. rewrite drop_ge by lia. repeat split; [constructor | cbn; lia | lia].
Qed.

Lemma make_batches_spec {A} (queueItems : list A) :
  exists batches,
    make_batches SYNC_BATCH_SIZE queueItems = Some batches /\
    concat batches = queueItems /\
    Forall (fun b => (0 < length b <= SYNC_BATCH_SIZE)%nat) batches /\
    (length batches * SYNC_BATCH_SIZE < length queueItems + SYNC_BATCH_SIZE)%nat /\
    (length queueItems <= length batches * SYNC_BATCH_SIZE)%nat.
Proof.
  destruct (batch_loop_spec (length queueItems) 0 queueItems) as
    (bs & Hloop & Hcat & Hall & Hup & Hlow); [lia|].
  exists bs. rewrite drop_0 in Hcat. rewrite Nat.sub_0_r in Hup, Hlow. done.
Qed.

End Batching.

#[local] Instance enqueued_before_dec : RelDecision enqueued_before.
Proof. intros a b. unfold enqueued_before. apply _. Defined.

#[local] Instance enqueued_before_trans : Transitive enqueued_before.
Proof. intros a b c. unfold enqueued_before. apply transitivity. Qed.

#[local] Instance enqueued_before_total : Total enqueued_before.
Proof. intros a b. unfold enqueued_before. apply String.le_total. Qed.

Lemma drain_sorted (w : World) : StronglySorted enqueued_before (drain w).
Proof. unfold drain, order_by_asc. apply (StronglySorted_merge_sort enqueued_before). Qed.

Lemma drain_permutation (w : World) : drain w ≡ₚ sync_queue w.
Proof. unfold drain, order_by_asc. apply merge_sort_Permutation. Qed.

Lemma drain_length (w : World) : length (drain w) = length (sync_queue w).
Proof. by rewrite drain_permutation. Qed.

(** ** The sync pass *)

Section SyncPass.

Variable Date_now : nat -> string.
Variable CURRENT_TIMESTAMP : nat -> string.
Variable JSON_parse : string -> string + Task.
Variable Date_getTime : string -> option Z.
Variable processBatch : nat -> list SyncQueueItem -> string + BatchSyncResponse.
Variable SYNC_BATCH_SIZE : nat.

Local Abbreviation step_item := (process_item Date_now CURRENT_TIMESTAMP JSON_parse Date_getTime).
Local Abbreviation step_items := (process_items Date_now CURRENT_TIMESTAMP JSON_parse Date_getTime).
Local Abbreviation step_batch :=
  (process_batch Date_now CURRENT_TIMESTAMP JSON_parse Date_getTime processBatch).
Local Abbreviation fail := (fail_batch CURRENT_TIMESTAMP).

Lemma fail_batch_result (message : string) (batch : list SyncQueueItem) (st : SyncState) :
  result (fail message batch st)
  = mkResult (success (result st)) (failed (result st) + length batch)
      (conflicts (result st)) (total (result st)).
Proof.
  unfold fail_batch. revert st. induction batch as [|item batch IH]; intros st; cbn.
  - rewrite Nat.add_0_r. by destruct (result st).
  - rewrite IH. cbn. f_equal. lia.
Qed.

Lemma fail_batch_world (message : string) (batch : list SyncQueueItem) (st : SyncState) :
  world (fail message batch st)
  = foldl (fun w item => handleSyncError CURRENT_TIMESTAMP item message w) (world st) batch.
Proof.
  unfold fail_batch. revert st. induction batch as [|item batch IH]; intros st; cbn;
    [reflexivity | by rewrite IH].
Qed.

Lemma process_item_total (resp : BatchSyncResponse) (item : SyncQueueItem) (st : SyncState) :
  total (result (step_item resp item st).2) = total (result st).
Proof. unfold process_item. repeat case_match; reflexivity. Qed.

Lemma process_items_total (resp : BatchSyncResponse) (batch : list SyncQueueItem)
    (st : SyncState) :
  total (result (step_items resp batch st).2) = total (result st).
Proof.
  revert st. induction batch as [|item batch IH]; intros st; cbn; [reflexivity|].
  pose proof (process_item_total resp item st) as Hitem.
  destruct (step_item resp item st) as [[m|] st1]; cbn in *; [exact Hitem|].
  by rewrite IH.
Qed.

Lemma process_batch_total (st : SyncState) (batch : list SyncQueueItem) :
  total (result (step_batch st batch)) = total (result st).
Proof.
  unfold process_batch. destruct (processBatch _ _) as [m | resp].
  - by rewrite fail_batch_result.
  - pose proof (process_items_total resp batch (mkState (bump (world st)) (result st)))
      as Hitems.
    destruct (step_items resp batch _) as [[m|] st2]; cbn in *; [|exact Hitems].
    by rewrite fail_batch_result.
Qed.

Lemma process_batches_total (batches : list (list SyncQueueItem)) (st : SyncState) :
  total (result (foldl step_batch st batches)) = total (result st).
Proof.
  revert st. induction batches as [|b batches IH]; intros st; cbn; [reflexivity|].
  by rewrite IH, process_batch_total.
Qed.

(** What [sync] computes, in terms of the batches. *)
Lemma sync_unfold (w : World) (batches : list (list SyncQueueItem)) :
  make_batches SYNC_BATCH_SIZE (drain w) = Some batches ->
  sync_queue w <> [] ->
  sync Date_now CURRENT_TIMESTAMP JSON_parse Date_getTime processBatch SYNC_BATCH_SIZE w
  = let st := foldl step_batch (mkState w (mkResult 0 0 0 (length (drain w)))) batches in
    Some (result st, world st).
Proof.
  intros Hb Hne. unfold sync. rewrite Hb.
  destruct (Nat.eqb_spec (length (drain w)) 0) as [H0|_]; [|reflexivity].
  rewrite drain_length in H0. by destruct (sync_queue w).
Qed.

Lemma sync_empty (w : World) :
  sync_queue w = [] ->
  sync Date_now CURRENT_TIMESTAMP JSON_parse Date_getTime processBatch SYNC_BATCH_SIZE w
  = Some (mkResult 0 0 0 0, w).
Proof.
  intros H. unfold sync.
  assert (drain w = []) as -> by (apply length_zero_iff_nil; by rewrite drain_length, H).
  reflexivity.
Qed.

End SyncPass.

(** C4: for a positive batch size, [sync] returns a result, and its
    [total] is the number of items drained from the queue, whatever the
    batch size and whatever the transmitter answers; the number of batches
    is the number of items divided by the batch size, rounded up. *)
Theorem sync_total_is_drained
    (Date_now CURRENT_TIMESTAMP : nat -> string)
    (JSON_parse : string -> string + Task) (Date_getTime : string -> option Z)
    (processBatch : nat -> list SyncQueueItem -> string + BatchSyncResponse)
    (SYNC_BATCH_SIZE : nat) (w : World) :
  (0 < SYNC_BATCH_SIZE)%nat ->
  exists (r : SyncResult) (w' : World) (batches : list (list SyncQueueItem)),
    sync Date_now CURRENT_TIMESTAMP JSON_parse Date_getTime processBatch SYNC_BATCH_SIZE w
    = Some (r, w') /\
    total r = length (drain w) /\
    total r = length (sync_queue w) /\
    make_batches SYNC_BATCH_SIZE (drain w) = Some batches /\
    length batches = ((length (drain w) + SYNC_BATCH_SIZE - 1) / SYNC_BATCH_SIZE)%nat.
Proof.
  intros Hpos.
  destruct (make_batches_spec SYNC_BATCH_SIZE Hpos (drain w))
    as (batches & Hb & _ & _ & Hup & Hlow).
  assert (length batches = ((length (drain w) + SYNC_BATCH_SIZE - 1) / SYNC_BATCH_SIZE)%nat)
    as Hcount.
  { apply (Nat.div_unique _ _ _
      (length (drain w) + SYNC_BATCH_SIZE - 1 - SYNC_BATCH_SIZE * length batches)); lia. }
  destruct (sync_queue w) as [|item queue] eqn:Hq.
  - exists (mkResult 0 0 0 0), w, batches.
    rewrite sync_empty by exact Hq.
    assert (length (drain w) = 0)%nat as H0 by (by rewrite drain_length, Hq).
    repeat split; cbn; auto.
  - eexists _, _, batches.
    rewrite (sync_unfold _ _ _ _ _ _ _ batches Hb) by (rewrite Hq; done).
    cbn zeta. split; [reflexivity|].
    rewrite process_batches_total. cbn [result total].
    rewrite <- Hq, drain_length. repeat split; auto.
    by rewrite <- drain_length.
Qed.

(** C5: the drain is the queue sorted by enqueue time, oldest first; for
    a positive batch size it is cut into batches of at most that size
    whose concatenation is the drained list, so that the items appear in
    the batches in enqueue order; and these batches, in this order, are
    what a pass goes through. *)
Theorem drain_batches_in_order
    (Date_now CURRENT_TIMESTAMP : nat -> string)
    (JSON_parse : string -> string + Task) (Date_getTime : string -> option Z)
    (processBatch : nat -> list SyncQueueItem -> string + BatchSyncResponse)
    (SYNC_BATCH_SIZE : nat) (w : World) :
  (0 < SYNC_BATCH_SIZE)%nat ->
  exists batches : list (list SyncQueueItem),
    make_batches SYNC_BATCH_SIZE (drain w) = Some batches /\
    concat batches = drain w /\
    Forall (fun b => (0 < length b <= SYNC_BATCH_SIZE)%nat) batches /\
    drain w ≡ₚ sync_queue w /\
    StronglySorted enqueued_before (drain w) /\
    StronglySorted enqueued_before (concat batches) /\
    sync Date_now CURRENT_TIMESTAMP JSON_parse Date_getTime processBatch SYNC_BATCH_SIZE w
    = match sync_queue w with
      | [] => Some (mkResult 0 0 0 0, w)
      | _ :: _ =>
          let st :=
            foldl (process_batch Date_now CURRENT_TIMESTAMP JSON_parse Date_getTime processBatch)
              (mkState w (mkResult 0 0 0 (length (drain w)))) batches in
          Some (result st, world st)
      end.
Proof.
  intros Hpos.
  destruct (make_batches_spec SYNC_BATCH_SIZE Hpos (drain w))
    as (batches & Hb & Hcat & Hall & _ & _).
  exists batches. repeat split; try done.
  - apply drain_permutation.
  - apply drain_sorted.
  - rewrite Hcat. apply drain_sorted.
  - destruct (sync_queue w) eqn:Hq.
    + by apply sync_empty.
    + apply sync_unfold; [exact Hb | by rewrite Hq].
Qed.

(** C6: when the transmitter throws for a batch, the error is recorded
    on every item of the batch, in order, with the message of the thrown
    error; the failed count grows by the size of the batch and the other
    counts stay as they were. *)
Theorem batch_failure_fails_every_item
    (Date_now CURRENT_TIMESTAMP : nat -> string)
    (JSON_parse : string -> string + Task) (Date_getTime : string -> option Z)
    (processBatch : nat -> list SyncQueueItem -> string + BatchSyncResponse)
    (st : SyncState) (batch : list SyncQueueItem) (message : string) :
  processBatch (tick (world st)) batch = inl message ->
  let st' := process_batch Date_now CURRENT_TIMESTAMP JSON_parse Date_getTime processBatch
               st batch in
  world st'
  = foldl (fun w item => handleSyncError CURRENT_TIMESTAMP item message w)
      (bump (world st)) batch /\
  failed (result st') = (failed (result st) + length batch)%nat /\
  success (result st') = success (result st) /\
  conflicts (result st') = conflicts (result st) /\
  total (result st') = total (result st).
Proof.
  intros Hthrow. cbn zeta. unfold process_batch. rewrite Hthrow.
  rewrite fail_batch_world, fail_batch_result. done.
Qed.

Lemma find_response_none (resp : BatchSyncResponse) (item : SyncQueueItem) :
  find_response resp item = None <->
  forall r, r ∈ results resp -> r_localId r <> Some (q_task_id item).
Proof.
  unfold find_response. split.
  - intros Hfind r Hin Heq. apply list_elem_of_In in Hin.
    apply (find_none _ _ Hfind) in Hin. by rewrite bool_decide_eq_true_2 in Hin.
  - intros Hall. induction (results resp) as [|r l IH]; [reflexivity|]. cbn.
    rewrite bool_decide_eq_false_2 by (apply Hall; left).
    apply IH. intros r' Hin. apply Hall. by right.
Qed.

(** C7: an item for which the response has no entry, or whose entry
    reports neither success nor conflict, goes through the error branch:
    [handleSyncError] is called with the message of the entry, or with
    "Unknown error" when there is no entry or no message, the failed count
    grows by one, and the loop goes on. *)
Theorem missing_entry_is_unknown_error
    (Date_now CURRENT_TIMESTAMP : nat -> string)
    (JSON_parse : string -> string + Task) (Date_getTime : string -> option Z)
    (resp : BatchSyncResponse) (item : SyncQueueItem) (st : SyncState) :
  (forall r, r ∈ results resp -> r_localId r <> Some (q_task_id item)) \/
  (exists r, find_response resp item = Some r /\
             truthy (r_success r) = false /\ truthy (r_conflict r) = false) ->
  let message :=
    match find_response resp item with
    | None => "Unknown error"
    | Some r => default "Unknown error" (truthy_string (r_error r))
    end in
  process_item Date_now CURRENT_TIMESTAMP JSON_parse Date_getTime resp item st
  = (None,
     {| world := handleSyncError CURRENT_TIMESTAMP item message (world st);
        result := mkResult (success (result st)) (S (failed (result st)))
                    (conflicts (result st)) (total (result st)) |}).
Proof.
  intros [Hnone | (r & Hr & Hs & Hc)]; cbn zeta.
  - apply find_response_none in Hnone. unfold process_item. rewrite Hnone. reflexivity.
  - unfold process_item. rewrite Hr. cbn -[truthy truthy_string].
    rewrite Hs, Hc. reflexivity.
Qed.

(** ** The success branch *)

Section Success.

Variable Date_now : nat -> string.
Variable CURRENT_TIMESTAMP : nat -> string.
Variable JSON_parse : string -> string + Task.
Variable Date_getTime : string -> option Z.

Lemma process_item_success (resp : BatchSyncResponse) (item : SyncQueueItem)
    (st : SyncState) (r : ResponseItem) :
  find_response resp item = Some r ->
  truthy (r_success r) = true ->
  process_item Date_now CURRENT_TIMESTAMP JSON_parse Date_getTime resp item st
  = (None,
     {| world := remove_item item
                   (updateSyncStatus CURRENT_TIMESTAMP (q_task_id item) synced
                      (r_data r) (world st));
        result := incr_success (result st) |}).
Proof.
  intros Hr Hs. unfold process_item. rewrite Hr. cbn -[truthy truthy_string].
  rewrite Hs. reflexivity.
Qed.

Lemma updateSyncStatus_queue (taskId : string) (status : SyncedOrError)
    (serverData : option PartialTask) (w : World) :
  sync_queue (updateSyncStatus CURRENT_TIMESTAMP taskId status serverData w) = sync_queue w.
Proof. destruct status; reflexivity. Qed.

Lemma updateSyncStatus_ids (taskId : string) (status : SyncedOrError)
    (serverData : option PartialTask) (w : World) :
  t_id <$> tasks (updateSyncStatus CURRENT_TIMESTAMP taskId status serverData w)
  = t_id <$> tasks w.
Proof.
  destruct status; cbn; unfold sql_update; rewrite <- list_fmap_compose;
    apply list_fmap_ext; intros _ r _; cbn; by destruct (eqs (t_id r) taskId).
Qed.

(** In the table after the UPDATE, a row of the task carries the new
    status, the time of the statement when the status is [synced], and
    the identifier of the server data when there is one. *)
Lemma updateSyncStatus_row (taskId : string) (status : SyncedOrError)
    (serverData : option PartialTask) (w : World) (row : TaskRow) :
  row ∈ tasks (updateSyncStatus CURRENT_TIMESTAMP taskId status serverData w) ->
  t_id row = taskId ->
  t_sync_status row = status_name status /\
  (status = synced -> t_last_synced_at row = Some (CURRENT_TIMESTAMP (tick w))) /\
  (forall sid, truthy_string (serverData ≫= p_id) = Some sid -> t_server_id row = Some sid).
Proof.
  intros Hin Hid.
  assert (exists r0, r0 ∈ tasks w /\ t_id r0 = taskId /\
            row = mkTaskRow (t_id r0) (t_title r0) (t_description r0) (t_completed r0)
                    (t_is_deleted r0) (status_name status) (t_created_at r0)
                    (t_updated_at r0)
                    (match status with
                     | synced => Some (CURRENT_TIMESTAMP (tick w))
                     | error => t_last_synced_at r0
                     end)
                    (match truthy_string (serverData ≫= p_id) with
                     | Some s => Some s
                     | None => t_server_id r0
                     end)) as (r0 & _ & _ & ->).
  { destruct status; cbn in Hin; unfold sql_update in Hin;
      apply list_elem_of_fmap in Hin as (r0 & Hrow & Hin0);
      exists r0; (split; [exact Hin0|]);
      destruct (eqs (t_id r0) taskId) eqn:E;
      try (apply bool_decide_eq_true in E; split; [exact E | exact Hrow]);
      apply bool_decide_eq_false in E; subst row; contradiction. }
  cbn. repeat split.
  - intros ->. reflexivity.
  - intros sid ->. reflexivity.
Qed.

(** Rows of other tasks are left as they were. *)
Lemma updateSyncStatus_other (taskId : string) (status : SyncedOrError)
    (serverData : option PartialTask) (w : World) (row : TaskRow) :
  t_id row <> taskId ->
  row ∈ tasks (updateSyncStatus CURRENT_TIMESTAMP taskId status serverData w) <->
  row ∈ tasks w.
Proof.
  intros Hid.
  destruct status; cbn; unfold sql_update; rewrite list_elem_of_fmap; split.
  all: try (intros (r0 & -> & Hin); destruct (eqs (t_id r0) taskId) eqn:E;
            [apply bool_decide_eq_true in E; cbn in Hid; contradiction | exact Hin]).
  all: intros Hin; exists row; split; [|exact Hin];
    unfold eqs; by rewrite bool_decide_eq_false_2.
Qed.

Lemma remove_item_queue (item : SyncQueueItem) (w : World) (r : SyncQueueItem) :
  r ∈ sync_queue (remove_item item w) <-> r ∈ sync_queue w /\ q_id r <> q_id item.
Proof.
  unfold remove_item, sql_delete. cbn.
  rewrite list_elem_of_In, filter_In, <- list_elem_of_In, negb_true_iff.
  unfold eqs. by rewrite bool_decide_eq_false.
Qed.

Lemma remove_item_tasks (item : SyncQueueItem) (w : World) :
  tasks (remove_item item w) = tasks w.
Proof. reflexivity. Qed.

End Success.

Lemma drain_singleton (w : World) (item : SyncQueueItem) :
  sync_queue w = [item] -> drain w = [item].
Proof. unfold drain, order_by_asc. intros ->. reflexivity. Qed.

Lemma make_batches_singleton {A} (SYNC_BATCH_SIZE : nat) (x : A) :
  (0 < SYNC_BATCH_SIZE)%nat -> make_batches SYNC_BATCH_SIZE [x] = Some [[x]].
Proof.
  destruct SYNC_BATCH_SIZE as [|b]; [lia|]. intros _.
  unfold make_batches. cbn. by rewrite take_nil.
Qed.

(** C8: when the entry found for an item reports success, the body of
    the loop completes normally; every row of the referenced task then
    has status [synced], the time of the statement as last-synced time
    and, when the entry carries data with an identifier, that identifier
    as server identifier; no other row is added or removed; the queue
    loses exactly the rows with the identifier of the item; the success
    count grows by one.  In particular a pass over a queue that holds
    this one item returns success 1, failed 0, conflicts 0, total 1, and
    leaves the queue empty and the task synced. *)
Theorem success_entry_marks_synced
    (Date_now CURRENT_TIMESTAMP : nat -> string)
    (JSON_parse : string -> string + Task) (Date_getTime : string -> option Z)
    (processBatch : nat -> list SyncQueueItem -> string + BatchSyncResponse)
    (SYNC_BATCH_SIZE : nat)
    (resp : BatchSyncResponse) (item : SyncQueueItem) (r : ResponseItem)
    (st : SyncState) (w : World) :
  find_response resp item = Some r ->
  truthy (r_success r) = true ->
  let out := process_item Date_now CURRENT_TIMESTAMP JSON_parse Date_getTime resp item st in
  out.1 = None /\
  (forall row, row ∈ tasks (world out.2) -> t_id row = q_task_id item ->
     t_sync_status row = "synced" /\
     t_last_synced_at row = Some (CURRENT_TIMESTAMP (tick (world st))) /\
     (forall sid, truthy_string (r_data r ≫= p_id) = Some sid ->
                  t_server_id row = Some sid)) /\
  t_id <$> tasks (world out.2) = t_id <$> tasks (world st) /\
  (forall q, q ∈ sync_queue (world out.2) <->
             q ∈ sync_queue (world st) /\ q_id q <> q_id item) /\
  result out.2
  = mkResult (S (success (result st))) (failed (result st)) (conflicts (result st))
      (total (result st)) /\
  (sync_queue w = [item] ->
   (0 < SYNC_BATCH_SIZE)%nat ->
   processBatch (tick w) [item] = inr resp ->
   exists w',
     sync Date_now CURRENT_TIMESTAMP JSON_parse Date_getTime processBatch SYNC_BATCH_SIZE w
     = Some (mkResult 1 0 0 1, w') /\
     sync_queue w' = [] /\
     t_id <$> tasks w' = t_id <$> tasks w /\
     forall row, row ∈ tasks w' -> t_id row = q_task_id item ->
                 t_sync_status row = "synced").
Proof.
  intros Hr Hs out. subst out.
  rewrite (process_item_success _ _ _ _ _ _ _ _ Hr Hs). cbn [fst snd world result].
  split; [reflexivity|]. split; [|split; [|split; [|split]]].
  - intros row Hin Hid. rewrite remove_item_tasks in Hin.
    destruct (updateSyncStatus_row _ _ _ _ _ _ Hin Hid) as (H1 & H2 & H3).
    repeat split; [exact H1 | by apply H2 | exact H3].
  - rewrite remove_item_tasks. apply updateSyncStatus_ids.
  - intros q. rewrite remove_item_queue, updateSyncStatus_queue. reflexivity.
  - reflexivity.
  - intros Hq Hpos Hresp.
    pose proof (drain_singleton w item Hq) as Hdrain.
    eexists.
    erewrite sync_unfold;
      [| rewrite Hdrain; by apply make_batches_singleton | by rewrite Hq].
    cbn zeta. rewrite Hdrain. cbn [foldl length].
    unfold process_batch. cbn [world result]. rewrite Hresp.
    cbn [process_items].
    rewrite (process_item_success _ _ _ _ _ _ _ _ Hr Hs). cbn [world result].
    split; [reflexivity|]. split; [|split].
    + unfold remove_item. cbn [sync_queue with_queue].
      rewrite updateSyncStatus_queue. cbn [sync_queue bump]. rewrite Hq.
      cbn. unfold eqs. by rewrite bool_decide_eq_true_2.
    + rewrite remove_item_tasks. by rewrite updateSyncStatus_ids.
    + intros row Hin Hid. rewrite remove_item_tasks in Hin.
      by destruct (updateSyncStatus_row _ _ _ _ _ _ Hin Hid) as (H1 & _).
Qed.

(** ** Retry bookkeeping *)

Section Retry.

Variable CURRENT_TIMESTAMP : nat -> string.

Local Abbreviation record_failure := (handleSyncError CURRENT_TIMESTAMP).

(** No item leaves the queue, and none changes its identifier, task or
    operation. *)
Lemma handleSyncError_keeps_items (item : SyncQueueItem) (message : string) (w : World) :
  (fun q => (q_id q, q_task_id q, q_operation q, q_data q, q_created_at q))
    <$> sync_queue (record_failure item message w)
  = (fun q => (q_id q, q_task_id q, q_operation q, q_data q, q_created_at q))
    <$> sync_queue w.
Proof.
  unfold handleSyncError. cbn.
  destruct (MAX_RETRIES <=? q_retry_count item + 1)%Z;
    rewrite ?updateSyncStatus_queue; cbn;
    unfold sql_update; rewrite <- list_fmap_compose;
    apply list_fmap_ext; intros _ q _; cbn;
    by destruct (eqs (q_id q) (q_id item)).
Qed.

(** The rows of the item get the retry count of the drained item plus
    one and the message; at the ceiling they get the status [failed]. *)
Lemma handleSyncError_row (item : SyncQueueItem) (message : string) (w : World)
    (row : SyncQueueItem) :
  row ∈ sync_queue (record_failure item message w) ->
  q_id row = q_id item ->
  q_retry_count row = (q_retry_count item + 1)%Z /\
  q_error_message row = Some message /\
  ((MAX_RETRIES <= q_retry_count item + 1)%Z -> q_status row = Some "failed").
Proof.
  unfold handleSyncError. cbn.
  destruct (Z.leb_spec MAX_RETRIES (q_retry_count item + 1)) as [Hge | Hlt];
    rewrite ?updateSyncStatus_queue; cbn; unfold sql_update;
    intros Hin Hid; apply list_elem_of_fmap in Hin as (q & -> & _);
    destruct (eqs (q_id q) (q_id item)) eqn:E; cbn in *;
    try (apply bool_decide_eq_false in E; contradiction);
    repeat split; try done; lia.
Qed.

(** Below the ceiling the status of the rows and the task table are
    left alone. *)
Lemma handleSyncError_below (item : SyncQueueItem) (message : string) (w : World) :
  (q_retry_count item + 1 < MAX_RETRIES)%Z ->
  q_status <$> sync_queue (record_failure item message w) = q_status <$> sync_queue w /\
  tasks (record_failure item message w) = tasks w.
Proof.
  intros Hlt. unfold handleSyncError. cbn.
  destruct (Z.leb_spec MAX_RETRIES (q_retry_count item + 1)); [lia|]. cbn.
  split; [|reflexivity].
  unfold sql_update. rewrite <- list_fmap_compose.
  apply list_fmap_ext; intros _ q _; cbn. by destruct (eqs (q_id q) (q_id item)).
Qed.

(** At the ceiling the rows of the referenced task get the status
    [error]. *)
Lemma handleSyncError_ceiling (item : SyncQueueItem) (message : string) (w : World)
    (row : TaskRow) :
  (MAX_RETRIES <= q_retry_count item + 1)%Z ->
  row ∈ tasks (record_failure item message w) ->
  t_id row = q_task_id item ->
  t_sync_status row = "error".
Proof.
  intros Hge. unfold handleSyncError, read_timestamp. cbn beta iota zeta.
  destruct (Z.leb_spec MAX_RETRIES (q_retry_count item + 1)); [|lia].
  intros Hin Hid.
  by destruct (updateSyncStatus_row _ _ _ _ _ _ Hin Hid) as (H1 & _).
Qed.

End Retry.

(** The drain does not look at the status or at the retry count of an
    item: whatever is in the queue is attempted by the next pass. *)
Lemma drain_takes_every_item (w : World) (item : SyncQueueItem) :
  item ∈ sync_queue w -> item ∈ drain w.
Proof. intros H. by rewrite drain_permutation. Qed.

(** ** The queue keeps one item per pair *)

Section QueueInvariant.

Variable uuidv4 : nat -> string.
Variable Date_now : nat -> string.
Variable CURRENT_TIMESTAMP : nat -> string.
Variable JSON_stringify : PartialTask -> string.
Variable JSON_parse : string -> string + Task.
Variable Date_getTime : string -> option Z.

Local Abbreviation keys w := (pair_key <$> sync_queue w).

Lemma keys_sql_delete (cond : SyncQueueItem -> bool) (queue : list SyncQueueItem) :
  pair_key <$> sql_delete cond queue `sublist_of` pair_key <$> queue.
Proof.
  unfold sql_delete. induction queue as [|q queue IH]; cbn; [constructor|].
  destruct (cond q); cbn; by constructor.
Qed.

Lemma updateTask_queue (i : string) (updates : PartialTask) (w : World) :
  sync_queue (updateTask Date_now i updates w).2 = sync_queue w.
Proof. unfold updateTask. by destruct (getTask i w). Qed.

Lemma deleteTask_queue (i : string) (w : World) :
  sync_queue (deleteTask Date_now i w).2 = sync_queue w.
Proof. unfold deleteTask. by destruct (getTask i w). Qed.

Lemma handleSyncError_keys (item : SyncQueueItem) (message : string) (w : World) :
  keys (handleSyncError CURRENT_TIMESTAMP item message w) = keys w.
Proof.
  unfold handleSyncError, read_timestamp. cbn beta iota zeta.
  destruct (MAX_RETRIES <=? q_retry_count item + 1)%Z;
    rewrite ?updateSyncStatus_queue; cbn [sync_queue with_queue bump];
    by apply keys_sql_update.
Qed.

Lemma process_item_keys (resp : BatchSyncResponse) (item : SyncQueueItem) (st : SyncState) :
  keys (world (process_item Date_now CURRENT_TIMESTAMP JSON_parse Date_getTime
                 resp item st).2)
  `sublist_of` keys (world st).
Proof.
  unfold process_item. repeat case_match; cbn [snd world]; try reflexivity.
  - unfold remove_item. cbn [sync_queue with_queue].
    rewrite updateSyncStatus_queue. apply keys_sql_delete.
  - unfold remove_item. cbn [sync_queue with_queue].
    rewrite updateSyncStatus_queue, updateTask_queue. apply keys_sql_delete.
  - unfold item_error. cbn [world]. by rewrite handleSyncError_keys.
Qed.

Lemma process_items_keys (resp : BatchSyncResponse) (batch : list SyncQueueItem)
    (st : SyncState) :
  keys (world (process_items Date_now CURRENT_TIMESTAMP JSON_parse Date_getTime
                 resp batch st).2)
  `sublist_of` keys (world st).
Proof.
  revert st. induction batch as [|item batch IH]; intros st; cbn [process_items];
    [reflexivity|].
  pose proof (process_item_keys resp item st) as Hitem.
  destruct (process_item _ _ _ _ resp item st) as [[m|] st1]; cbn [snd] in *;
    [exact Hitem|].
  etrans; [apply IH | exact Hitem].
Qed.

Lemma fail_batch_keys (message : string) (batch : list SyncQueueItem) (st : SyncState) :
  keys (world (fail_batch CURRENT_TIMESTAMP message batch st)) = keys (world st).
Proof.
  rewrite fail_batch_world. generalize (world st) as w.
  induction batch as [|item batch IH]; intros w; cbn [foldl]; [reflexivity|].
  by rewrite IH, handleSyncError_keys.
Qed.

Lemma process_batch_keys
    (processBatch : nat -> list SyncQueueItem -> string + BatchSyncResponse)
    (st : SyncState) (batch : list SyncQueueItem) :
  keys (world (process_batch Date_now CURRENT_TIMESTAMP JSON_parse Date_getTime
                 processBatch st batch))
  `sublist_of` keys (world st).
Proof.
  unfold process_batch. destruct (processBatch _ _) as [m | resp].
  - by rewrite fail_batch_keys.
  - pose proof (process_items_keys resp batch (mkState (bump (world st)) (result st)))
      as Hitems.
    destruct (process_items _ _ _ _ resp batch _) as [[m|] st2]; cbn [snd] in *;
      [|exact Hitems].
    by rewrite fail_batch_keys.
Qed.

Lemma process_batches_keys
    (processBatch : nat -> list SyncQueueItem -> string + BatchSyncResponse)
    (batches : list (list SyncQueueItem)) (st : SyncState) :
  keys (world (foldl (process_batch Date_now CURRENT_TIMESTAMP JSON_parse Date_getTime
                        processBatch) st batches))
  `sublist_of` keys (world st).
Proof.
  revert st. induction batches as [|b batches IH]; intros st; cbn [foldl]; [reflexivity|].
  etrans; [apply IH | apply process_batch_keys].
Qed.

Lemma sync_keys
    (processBatch : nat -> list SyncQueueItem -> string + BatchSyncResponse)
    (SYNC_BATCH_SIZE : nat) (w : World) (r : SyncResult) (w' : World) :
  sync Date_now CURRENT_TIMESTAMP JSON_parse Date_getTime processBatch SYNC_BATCH_SIZE w
  = Some (r, w') ->
  keys w' `sublist_of` keys w.
Proof.
  unfold sync. destruct (length (drain w) =? 0)%nat; [by intros [= _ <-]|].
  destruct (make_batches SYNC_BATCH_SIZE (drain w)) as [batches|]; [|discriminate].
  cbn. intros [= _ <-].
  apply (process_batches_keys processBatch batches
           (mkState w (mkResult 0 0 0 (length (drain w))))).
Qed.

(** Every world the services can bring about keeps the invariant of the
    data model. *)
Lemma reachable_one_per_pair (w : World) :
  reachable uuidv4 Date_now CURRENT_TIMESTAMP JSON_stringify JSON_parse Date_getTime w ->
  one_per_pair (sync_queue w).
Proof.
  induction 1 as [n | d w _ IH | i d w _ IH | i w _ IH | t o d w _ IH
                 | pb size w r w' _ IH Hsync].
  - apply NoDup_nil_2.
  - exact IH.
  - by rewrite updateTask_queue.
  - by rewrite deleteTask_queue.
  - by apply enqueue_one_per_pair.
  - unfold one_per_pair. eapply sublist_NoDup; [exact IH | eapply sync_keys, Hsync].
Qed.

End QueueInvariant.

(** ** The theorems at the examples *)

Example queued_world :
  sync_queue Examples.queued = [Examples.create_item] /\
  q_data Examples.create_item
  = "{" +:+ Sample.quote "id" +:+ ":" +:+ Sample.quote Examples.T1 +:+ ","
        +:+ Sample.quote "title" +:+ ":" +:+ Sample.quote "A" +:+ ","
        +:+ Sample.quote "description" +:+ ":" +:+ Sample.quote EmptyString +:+ ","
        +:+ Sample.quote "completed" +:+ ":false,"
        +:+ Sample.quote "is_deleted" +:+ ":false,"
        +:+ Sample.quote "sync_status" +:+ ":" +:+ Sample.quote "pending" +:+ ","
        +:+ Sample.quote "created_at" +:+ ":" +:+ Sample.quote "2024-01-01T00:00:01.000Z" +:+ ","
        +:+ Sample.quote "updated_at" +:+ ":" +:+ Sample.quote "2024-01-01T00:00:01.000Z" +:+ ","
        +:+ Sample.quote "last_synced_at" +:+ ":null,"
        +:+ Sample.quote "server_id" +:+ ":null}".
Proof. split; vm_compute; reflexivity. Qed.

Lemma addToSyncQueue_idempotent_upsert_witness :
  let w2 :=
    addToSyncQueue Sample.uuidv4 Sample.CURRENT_TIMESTAMP Sample.JSON_stringify
      Examples.T1 create (Examples.titled "B")
      (addToSyncQueue Sample.uuidv4 Sample.CURRENT_TIMESTAMP Sample.JSON_stringify
         Examples.T1 create (Examples.titled "A") Examples.queued) in
  (exists item,
      sql_select (same_pair Examples.T1 create) (sync_queue w2) = [item] /\
      q_data item = Sample.JSON_stringify (Examples.titled "B") /\
      q_retry_count item = 0%Z) /\
  one_per_pair (sync_queue w2).
Proof.
  apply (addToSyncQueue_idempotent_upsert Sample.uuidv4 Sample.CURRENT_TIMESTAMP
           Sample.JSON_stringify Examples.T1 create
           (Examples.titled "A") (Examples.titled "B") Examples.queued).
  unfold one_per_pair. apply (bool_decide_unpack _). vm_compute. exact I.
Defined.

Lemma sync_total_is_drained_witness :
  exists (r : SyncResult) (w' : World) (batches : list (list SyncQueueItem)),
    Examples.pass Examples.accept_all 10 Examples.backlog = Some (r, w') /\
    total r = length (drain Examples.backlog) /\
    total r = length (sync_queue Examples.backlog) /\
    make_batches 10 (drain Examples.backlog) = Some batches /\
    length batches = ((length (drain Examples.backlog) + 10 - 1) / 10)%nat.
Proof.
  apply (sync_total_is_drained Sample.Date_now Sample.CURRENT_TIMESTAMP
           (Sample.JSON_parse [Examples.task1]) Sample.Date_getTime
           Examples.accept_all 10 Examples.backlog).
  lia.
Defined.

(** Twenty-five items with a batch size of ten: batches of ten, ten and
    five items, and a total of twenty-five. *)
Example backlog_in_three_batches :
  length <$> (default [] (make_batches 10 (drain Examples.backlog))) = [10; 10; 5]%nat /\
  fst <$> Examples.pass Examples.accept_all 10 Examples.backlog = Some (mkResult 25 0 0 25) /\
  fst <$> Examples.pass Examples.network_down 10 Examples.backlog = Some (mkResult 0 25 0 25) /\
  fst <$> Examples.pass Examples.accept_all 7 Examples.backlog = Some (mkResult 25 0 0 25).
Proof. repeat split; vm_compute; reflexivity. Qed.

Lemma drain_batches_in_order_witness :
  exists batches : list (list SyncQueueItem),
    make_batches 10 (drain Examples.backlog) = Some batches /\
    concat batches = drain Examples.backlog /\
    Forall (fun b => (0 < length b <= 10)%nat) batches /\
    drain Examples.backlog ≡ₚ sync_queue Examples.backlog /\
    StronglySorted enqueued_before (drain Examples.backlog) /\
    StronglySorted enqueued_before (concat batches) /\
    Examples.pass Examples.accept_all 10 Examples.backlog
    = match sync_queue Examples.backlog with
      | [] => Some (mkResult 0 0 0 0, Examples.backlog)
      | _ :: _ =>
          let st :=
            foldl (process_batch Sample.Date_now Sample.CURRENT_TIMESTAMP
                     (Sample.JSON_parse [Examples.task1]) Sample.Date_getTime
                     Examples.accept_all)
              (mkState Examples.backlog
                 (mkResult 0 0 0 (length (drain Examples.backlog)))) batches in
          Some (result st, world st)
      end.
Proof.
  apply (drain_batches_in_order Sample.Date_now Sample.CURRENT_TIMESTAMP
           (Sample.JSON_parse [Examples.task1]) Sample.Date_getTime
           Examples.accept_all 10 Examples.backlog).
  lia.
Defined.

(** Items enqueued at three instants and stored in another order are
    batched oldest first, whatever the batch size. *)
Example three_items_in_enqueue_order :
  let stored := mkWorld [] [Examples.numbered 3; Examples.numbered 1; Examples.numbered 2] 0 in
  let oldest_first := [Examples.numbered 1; Examples.numbered 2; Examples.numbered 3] in
  (fun batches => concat batches) <$> make_batches 1 (drain stored) = Some oldest_first /\
  (fun batches => concat batches) <$> make_batches 2 (drain stored) = Some oldest_first /\
  (fun batches => concat batches) <$> make_batches 10 (drain stored) = Some oldest_first /\
  make_batches 2 (drain stored)
  = Some [[Examples.numbered 1; Examples.numbered 2]; [Examples.numbered 3]].
Proof. repeat split; vm_compute; reflexivity. Qed.

Lemma batch_failure_fails_every_item_witness :
  let st := mkState Examples.queued (mkResult 0 0 0 1) in
  let st' := process_batch Sample.Date_now Sample.CURRENT_TIMESTAMP
               (Sample.JSON_parse [Examples.task1]) Sample.Date_getTime
               Examples.network_down st [Examples.create_item] in
  world st'
  = foldl (fun w item => handleSyncError Sample.CURRENT_TIMESTAMP item "Network Error" w)
      (bump (world st)) [Examples.create_item] /\
  failed (result st') = (failed (result st) + length [Examples.create_item])%nat /\
  success (result st') = success (result st) /\
  conflicts (result st') = conflicts (result st) /\
  total (result st') = total (result st).
Proof.
  apply (batch_failure_fails_every_item Sample.Date_now Sample.CURRENT_TIMESTAMP
           (Sample.JSON_parse [Examples.task1]) Sample.Date_getTime
           Examples.network_down (mkState Examples.queued (mkResult 0 0 0 1))
           [Examples.create_item] "Network Error").
  reflexivity.
Defined.

Lemma missing_entry_is_unknown_error_witness :
  let st := mkState (bump Examples.queued) (mkResult 0 0 0 1) in
  process_item Sample.Date_now Sample.CURRENT_TIMESTAMP
    (Sample.JSON_parse [Examples.task1]) Sample.Date_getTime
    {| results := [] |} Examples.create_item st
  = (None,
     {| world := handleSyncError Sample.CURRENT_TIMESTAMP Examples.create_item
                   "Unknown error" (world st);
        result := mkResult 0 1 0 1 |}).
Proof.
  apply (missing_entry_is_unknown_error Sample.Date_now Sample.CURRENT_TIMESTAMP
           (Sample.JSON_parse [Examples.task1]) Sample.Date_getTime
           {| results := [] |} Examples.create_item
           (mkState (bump Examples.queued) (mkResult 0 0 0 1))).
  left. intros r Hr. inversion Hr.
Defined.

(** An entry that carries a message of its own, and one that carries
    none. *)
Example rejected_entry_keeps_its_message :
  let st := mkState (bump Examples.queued) (mkResult 0 0 0 1) in
  let step entry :=
    process_item Sample.Date_now Sample.CURRENT_TIMESTAMP
      (Sample.JSON_parse [Examples.task1]) Sample.Date_getTime
      {| results := [entry] |} Examples.create_item st in
  (q_error_message <$> sync_queue (world (step
      (mkResponse (Some Examples.T1) None None (Some "Title too long") None None)).2))
  = [Some "Title too long"] /\
  (q_error_message <$> sync_queue (world (step
      (mkResponse (Some Examples.T1) (Some false) None None None None)).2))
  = [Some "Unknown error"].
Proof. split; vm_compute; reflexivity. Qed.

Lemma success_entry_marks_synced_witness :
  let resp := {| results := [Examples.acknowledge Examples.create_item] |} in
  let st := mkState (bump Examples.queued) (mkResult 0 0 0 1) in
  let out := process_item Sample.Date_now Sample.CURRENT_TIMESTAMP
               (Sample.JSON_parse [Examples.task1]) Sample.Date_getTime
               resp Examples.create_item st in
  (out.1 = None /\
   (forall row, row ∈ tasks (world out.2) -> t_id row = Examples.T1 ->
      t_sync_status row = "synced" /\
      t_last_synced_at row = Some (Sample.CURRENT_TIMESTAMP 5) /\
      t_server_id row = Some ("srv-" +:+ Examples.T1)) /\
   result out.2 = mkResult 1 0 0 1) /\
  (exists w',
      Examples.pass Examples.accept_all 10 Examples.queued = Some (mkResult 1 0 0 1, w') /\
      sync_queue w' = [] /\
      t_id <$> tasks w' = t_id <$> tasks Examples.queued /\
      forall row, row ∈ tasks w' -> t_id row = Examples.T1 -> t_sync_status row = "synced").
Proof.
  destruct (success_entry_marks_synced Sample.Date_now Sample.CURRENT_TIMESTAMP
              (Sample.JSON_parse [Examples.task1]) Sample.Date_getTime
              Examples.accept_all 10
              {| results := [Examples.acknowledge Examples.create_item] |}
              Examples.create_item (Examples.acknowledge Examples.create_item)
              (mkState (bump Examples.queued) (mkResult 0 0 0 1)) Examples.queued)
    as (Hnormal & Hrows & _ & _ & Hresult & Hpass).
  - vm_compute. reflexivity.
  - reflexivity.
  - split.
    + split; [exact Hnormal|]. split; [|exact Hresult].
      intros row Hin Hid. destruct (Hrows row Hin Hid) as (Hs & Ht & Hsid).
      split; [exact Hs|]. split; [exact Ht|]. apply Hsid. reflexivity.
    + apply Hpass; [vm_compute; reflexivity | lia | reflexivity].
Defined.

(** The first scenario of the specification, run: a task is created and
    queued, and a pass with an acknowledging transmitter leaves it synced,
    with the server identifier, and the queue empty. *)
Example end_to_end_create :
  let after := Examples.pass Examples.accept_all 10 Examples.queued in
  fst <$> after = Some (mkResult 1 0 0 1) /\
  (sync_queue ∘ snd) <$> after = Some [] /\
  (fmap (M:=list) (fun row => (t_id row, t_sync_status row, t_server_id row, t_last_synced_at row))
     ∘ tasks ∘ snd) <$> after
  = Some [(Examples.T1, "synced", Some ("srv-" +:+ Examples.T1), Some "2024-01-01 00:00:05")].
Proof. repeat split; vm_compute; reflexivity. Qed.

(** The conflict branch, run: a server version modified later replaces
    the local fields, one modified at the same millisecond as the local
    version does not; either way the item leaves the queue and the pass
    counts one conflict. *)
Example conflict_pass :
  let outcome_of serverTask :=
    (fun '(r, w) => (r, length (sync_queue w),
                     (fun row => (t_title row, t_completed row, t_sync_status row))
                       <$> tasks w))
      <$> Examples.pass (Examples.conflicting serverTask) 10 Examples.queued in
  outcome_of (Examples.server_version "2024-01-01T00:00:01.001Z")
  = Some (mkResult 0 0 1 1, 0%nat, [("A, as the server has it", 1%Z, "synced")]) /\
  outcome_of (Examples.server_version "2024-01-01T00:00:01.000Z")
  = Some (mkResult 0 0 1 1, 0%nat, [("A", 0%Z, "synced")]) /\
  outcome_of (Examples.server_version "not a date")
  = Some (mkResult 0 1 0 1, 1%nat, [("A", 0%Z, "pending")]).
Proof. repeat split; vm_compute; reflexivity. Qed.

(** With the transmitter of the source, whose entries carry no
    [localId], no entry is ever found for an item: every item of a pass
    takes the error branch with "Unknown error". *)
Lemma find_response_source (batch : list SyncQueueItem) (item : SyncQueueItem) :
  find_response (processBatch_source batch) item = None.
Proof.
  apply find_response_none. intros r Hin. cbn in Hin.
  apply list_elem_of_fmap in Hin as (x & -> & _). cbn. discriminate.
Qed.

Example source_transmitter_fails_the_create :
  let after := Examples.pass (fun _ batch => inr (processBatch_source batch)) 10
                 Examples.queued in
  fst <$> after = Some (mkResult 0 1 0 1) /\
  (fmap (M:=list) (fun q => (q_retry_count q, q_error_message q)) ∘ sync_queue ∘ snd) <$> after
  = Some [(1%Z, Some "Unknown error")].
Proof. split; vm_compute; reflexivity. Qed.

(** C2, at an input where the code departs from it: a queued change
    that fails three passes in a row is marked [failed] with a retry
    count of three, and its task [error]; the fourth pass drains it and
    attempts it again, and its retry count becomes four. *)
Theorem permanently_failed_item_is_retried :
  let w3 := Examples.after_passes Examples.network_down 3 Examples.queued in
  let w2 := Examples.after_passes Examples.network_down 2 Examples.queued in
  (fun q => (q_retry_count q, q_status q, q_error_message q)) <$> sync_queue w2
  = [(2%Z, None, Some "Network Error")] /\
  t_sync_status <$> tasks w2 = ["pending"] /\
  (fun q => (q_retry_count q, q_status q, q_error_message q)) <$> sync_queue w3
  = [(3%Z, Some "failed", Some "Network Error")] /\
  t_sync_status <$> tasks w3 = ["error"] /\
  q_id <$> drain w3 = [q_id Examples.create_item] /\
  (exists w4,
      Examples.pass Examples.network_down 10 w3 = Some (mkResult 0 1 0 1, w4) /\
      (fun q => (q_retry_count q, q_status q, q_error_message q)) <$> sync_queue w4
      = [(4%Z, Some "failed", Some "Network Error")]).
Proof.
  repeat split; try (vm_compute; reflexivity).
  eexists. split; vm_compute; reflexivity.
Qed.

(** * Further properties *)

(** ** Reading and writing tasks *)

Lemma select_after_update {A} (sel cond : A -> bool) (set : A -> A) (rows : list A) :
  (forall r, sel (set r) = sel r) ->
  sql_select sel (sql_update cond set rows)
  = (fun r => if cond r then set r else r) <$> sql_select sel rows.
Proof.
  intros Hsel. unfold sql_select, sql_update.
  induction rows as [|r rows IH]; [reflexivity|]. cbn.
  assert (sel (if cond r then set r else r) = sel r) as -> by (destruct (cond r); auto).
  destruct (sel r); cbn; by rewrite IH.
Qed.

Lemma select_none {A} (sel : A -> bool) (rows : list A) :
  (forall r, r ∈ rows -> sel r = false) -> sql_select sel rows = [].
Proof.
  unfold sql_select. induction rows as [|r rows IH]; intros H; [reflexivity|].
  cbn. rewrite (H r) by left. apply IH. intros r' Hin. apply H. by right.
Qed.

Lemma select_app {A} (sel : A -> bool) (l1 l2 : list A) :
  sql_select sel (l1 ++ l2) = sql_select sel l1 ++ sql_select sel l2.
Proof. apply List.filter_app. Qed.

Lemma elem_of_select {A} (sel : A -> bool) (rows : list A) (r : A) :
  r ∈ sql_select sel rows <-> r ∈ rows /\ sel r = true.
Proof. unfold sql_select. by rewrite !list_elem_of_In, filter_In. Qed.

(** Writing a task as a row and reading the row back gives the task;
    reading a row and writing it back gives the row exactly when its two
    flags are 0 or 1. *)
Theorem task_row_round_trip (t : Task) (r : TaskRow) :
  mapRowToTask (row_of_task t) = t /\
  (row_of_task (mapRowToTask r) = r <->
   (t_completed r = 0 \/ t_completed r = 1)%Z /\
   (t_is_deleted r = 0 \/ t_is_deleted r = 1)%Z).
Proof.
  split; [destruct t as [? ? ? [] [] ? ? ? ? ?]; reflexivity|].
  destruct r as [i ti d c del st ca ua ls sid]. unfold row_of_task, mapRowToTask. cbn.
  split.
  - intros [= Hc Hd]. split.
    + destruct (Z.eqb_spec c 0); cbn in Hc; auto.
    + destruct (Z.eqb_spec del 0); cbn in Hd; auto.
  - intros [[-> | ->] [-> | ->]]; reflexivity.
Qed.

Lemma createTask_read
    (uuidv4 Date_now : nat -> string) (taskData : PartialTask) (w : World) :
  uuidv4 (tick w) ∉ t_id <$> tasks w ->
  let task := (createTask uuidv4 Date_now taskData w).1 in
  let w' := (createTask uuidv4 Date_now taskData w).2 in
  getTask (id task) w' = Some task /\
  task ∈ getAllTasks w' /\
  task ∈ getTasksNeedingSync w' /\
  (forall i, i <> id task -> getTask i w' = getTask i w).
Proof.
  intros Hfresh. cbn zeta. unfold createTask. cbn [read_uuid read_now fst snd].
  set (task := mkTask _ _ _ _ _ _ _ _ _ _).
  unfold with_tasks.
  assert (mapRowToTask (row_of_task task) = task) as Hrt by reflexivity.
  assert (row_of_task task ∈ tasks w ++ [row_of_task task]) as Hin
      by (apply elem_of_app; right; left).
  split; [|split; [|split]].
  - rewrite getTask_select. cbn [tasks bump]. rewrite select_app.
    rewrite (select_none (live (id task)) (tasks w)).
    + cbn. unfold live, eqs. cbn. rewrite bool_decide_eq_true_2 by done. reflexivity.
    + intros r Hr. unfold live, eqs. rewrite bool_decide_eq_false_2; [done|].
      intros Heq. apply Hfresh. change (uuidv4 (tick w)) with (id task).
      rewrite <- Heq. by apply list_elem_of_fmap_2.
  - unfold getAllTasks. cbn [tasks bump]. rewrite <- Hrt. apply list_elem_of_fmap_2.
    unfold order_by_desc. rewrite merge_sort_Permutation.
    apply elem_of_select. split; [exact Hin | reflexivity].
  - unfold getTasksNeedingSync. cbn [tasks bump]. rewrite <- Hrt. apply list_elem_of_fmap_2.
    unfold order_by_asc. rewrite merge_sort_Permutation.
    apply elem_of_select. split; [exact Hin | reflexivity].
  - intros i Hi. rewrite !getTask_select. cbn [tasks bump]. rewrite select_app.
    rewrite (select_none (live i) [row_of_task task]).
    + by rewrite app_nil_r.
    + intros r Hr. apply list_elem_of_singleton in Hr as ->.
      unfold live, eqs. rewrite bool_decide_eq_false_2; [done|].
      intros Heq. apply Hi. symmetry. exact Heq.
Qed.

(** A task just created under an identifier that no row has yet is what
    [getTask] returns for that identifier, it is listed by [getAllTasks]
    and by [getTasksNeedingSync], and the other identifiers read as
    before. *)
Theorem createTask_then_read
    (uuidv4 Date_now : nat -> string) (taskData : PartialTask) (w : World) :
  uuidv4 (tick w) ∉ t_id <$> tasks w ->
  let task := (createTask uuidv4 Date_now taskData w).1 in
  let w' := (createTask uuidv4 Date_now taskData w).2 in
  getTask (id task) w' = Some task /\
  task ∈ getAllTasks w' /\
  task ∈ getTasksNeedingSync w' /\
  (forall i, i <> id task -> getTask i w' = getTask i w).
Proof. apply createTask_read. Qed.

Lemma fmap_sql_update {A B} (col : A -> B) (cond : A -> bool) (set : A -> A)
    (rows : list A) :
  (forall r, col (set r) = col r) ->
  col <$> sql_update cond set rows = col <$> rows.
Proof.
  intros Hcol. unfold sql_update. rewrite <- list_fmap_compose.
  apply list_fmap_ext. intros _ r _. cbn. destruct (cond r); [apply Hcol | reflexivity].
Qed.

Lemma sql_update_other {A} (cond : A -> bool) (set : A -> A) (rows : list A) (r : A) :
  (forall x, cond (set x) = cond x) ->
  cond r = false ->
  r ∈ sql_update cond set rows <-> r ∈ rows.
Proof.
  intros Hcond Hr. unfold sql_update. rewrite list_elem_of_fmap. split.
  - intros (x & -> & Hin). destruct (cond x) eqn:E; [|exact Hin].
    rewrite Hcond in Hr. congruence.
  - intros Hin. exists r. by rewrite Hr.
Qed.

Lemma getTask_some_inv (i : string) (w : World) (t : Task) :
  getTask i w = Some t ->
  exists r rest,
    sql_select (live i) (tasks w) = r :: rest /\ t = mapRowToTask r /\
    t_id r = i /\ t_is_deleted r = 0%Z.
Proof.
  rewrite getTask_select. intros H.
  destruct (sql_select (live i) (tasks w)) as [|r rest] eqn:E; [discriminate|].
  cbn in H. injection H as <-. exists r, rest. split; [reflexivity|]. split; [reflexivity|].
  assert (r ∈ sql_select (live i) (tasks w)) as Hin by (rewrite E; left).
  apply elem_of_select in Hin as [_ Hlive]. unfold live, eqs in Hlive.
  apply andb_true_iff in Hlive as [Hid Hdel].
  apply bool_decide_eq_true in Hid. by apply Z.eqb_eq in Hdel.
Qed.

Lemma updateTask_live
    (Date_now : nat -> string) (i : string) (updates : PartialTask) (w : World)
    (old : Task) :
  getTask i w = Some old ->
  let new :=
    {| id := i;
       title := default (title old) (p_title updates);
       description := default (description old) (p_description updates);
       completed := default (completed old) (p_completed updates);
       is_deleted := false;
       sync_status := "pending";
       created_at := created_at old;
       updated_at := Date_now (tick w);
       last_synced_at := last_synced_at old;
       server_id := server_id old |} in
  let w' := (updateTask Date_now i updates w).2 in
  (updateTask Date_now i updates w).1 = Some new /\
  getTask i w' = Some new /\
  t_id <$> tasks w' = t_id <$> tasks w /\
  (forall r, t_id r <> i -> r ∈ tasks w' <-> r ∈ tasks w) /\
  sync_queue w' = sync_queue w.
Proof.
  intros Hold. cbn zeta.
  destruct (getTask_some_inv i w old Hold) as (r0 & rest & Hsel & -> & Hid & Hdel).
  unfold updateTask. rewrite Hold. cbn [read_now fst snd].
  set (set := fun r : TaskRow => mkTaskRow _ _ _ _ _ _ _ _ _ _).
  assert (getTask i (with_tasks (sql_update (fun r => eqs (t_id r) i) set (tasks (bump w)))
                       (bump w))
          = Some (mkTask i (default (t_title r0) (p_title updates))
                    (default (t_description r0) (p_description updates))
                    (default (negb (t_completed r0 =? 0)%Z) (p_completed updates))
                    false "pending" (t_created_at r0) (Date_now (tick w))
                    (t_last_synced_at r0) (t_server_id r0))) as Hget.
  { rewrite getTask_select. cbn [tasks with_tasks bump].
    rewrite select_after_update by reflexivity.
    rewrite Hsel. cbn [fmap list_fmap head]. unfold eqs.
    rewrite bool_decide_eq_true_2 by exact Hid.
    cbn. unfold mapRowToTask, set_opt. cbn. rewrite Hid, Hdel.
    destruct (p_completed updates) as [[]|]; reflexivity. }
  split; [exact Hget|]. split; [exact Hget|]. split; [|split].
  - cbn [tasks with_tasks bump]. by apply fmap_sql_update.
  - intros r Hr. cbn [tasks with_tasks bump].
    apply sql_update_other; [reflexivity|].
    unfold eqs. by rewrite bool_decide_eq_false_2.
  - reflexivity.
Qed.

(** [updateTask] on a task that [getTask] finds returns that task with
    the supplied fields replaced, the others kept, the status back to
    [pending] and the time of the call as modification time; this is what
    [getTask] returns afterwards; no row is added or removed, the rows of
    other identifiers are as before, and the queue is not touched. *)
Theorem updateTask_replaces_supplied_fields
    (Date_now : nat -> string) (i : string) (updates : PartialTask) (w : World)
    (old : Task) :
  getTask i w = Some old ->
  let new :=
    {| id := i;
       title := default (title old) (p_title updates);
       description := default (description old) (p_description updates);
       completed := default (completed old) (p_completed updates);
       is_deleted := false;
       sync_status := "pending";
       created_at := created_at old;
       updated_at := Date_now (tick w);
       last_synced_at := last_synced_at old;
       server_id := server_id old |} in
  let w' := (updateTask Date_now i updates w).2 in
  (updateTask Date_now i updates w).1 = Some new /\
  getTask i w' = Some new /\
  t_id <$> tasks w' = t_id <$> tasks w /\
  (forall r, t_id r <> i -> r ∈ tasks w' <-> r ∈ tasks w) /\
  sync_queue w' = sync_queue w.
Proof. apply updateTask_live. Qed.

(** [deleteTask] on a task that [getTask] finds is a soft delete: it
    returns [true], no row is added or removed, what the user entered stays
    in every row, as do the marks of the last sync; the rows of the
    identifier are flagged deleted, pending, with the time of the call as
    modification time; the rows of other identifiers are as before. *)
Theorem deleteTask_keeps_the_data
    (Date_now : nat -> string) (i : string) (w : World) (old : Task) :
  getTask i w = Some old ->
  let w' := (deleteTask Date_now i w).2 in
  (deleteTask Date_now i w).1 = true /\
  task_data <$> tasks w' = task_data <$> tasks w /\
  sync_marks <$> tasks w' = sync_marks <$> tasks w /\
  (forall r, r ∈ tasks w' -> t_id r = i ->
     t_is_deleted r = 1%Z /\ t_sync_status r = "pending" /\
     t_updated_at r = Date_now (tick w)) /\
  (forall r, t_id r <> i -> r ∈ tasks w' <-> r ∈ tasks w) /\
  sync_queue w' = sync_queue w.
Proof.
  intros Hold. cbn zeta. unfold deleteTask. rewrite Hold. cbn [read_now fst snd].
  cbn [tasks with_tasks bump sync_queue].
  split; [reflexivity|]. split; [by apply fmap_sql_update|].
  split; [by apply fmap_sql_update|]. split; [|split; [|reflexivity]].
  - intros r Hin Hr. unfold sql_update in Hin.
    apply list_elem_of_fmap in Hin as (x & -> & _).
    destruct (eqs (t_id x) i) eqn:E; [done|].
    apply bool_decide_eq_false in E. contradiction.
  - intros r Hr. apply sql_update_other; [reflexivity|].
    unfold eqs. by rewrite bool_decide_eq_false_2.
Qed.

Lemma order_by_asc_sorted {A} (col : A -> string) (rows : list A) :
  StronglySorted (fun a b => String.le (col a) (col b)) (order_by_asc col rows).
Proof.
  unfold order_by_asc. apply StronglySorted_merge_sort.
  - intros a b c. apply transitivity.
  - intros a b. apply String.le_total.
Qed.

Lemma order_by_desc_sorted {A} (col : A -> string) (rows : list A) :
  StronglySorted (fun a b => String.le (col b) (col a)) (order_by_desc col rows).
Proof.
  unfold order_by_desc. apply StronglySorted_merge_sort.
  - intros a b c H1 H2. by etrans.
  - intros a b. apply String.le_total.
Qed.

Lemma getAllTasks_elem (w : World) (t : Task) :
  t ∈ getAllTasks w <->
  exists r, r ∈ tasks w /\ t_is_deleted r = 0%Z /\ t = mapRowToTask r.
Proof.
  unfold getAllTasks. rewrite list_elem_of_fmap.
  unfold order_by_desc. setoid_rewrite merge_sort_Permutation.
  setoid_rewrite elem_of_select. setoid_rewrite Z.eqb_eq.
  split; intros (r & H); exists r; tauto.
Qed.

Lemma getTasksNeedingSync_elem (w : World) (t : Task) :
  t ∈ getTasksNeedingSync w <->
  exists r, r ∈ tasks w /\ t_is_deleted r = 0%Z /\
            (t_sync_status r = "pending" \/ t_sync_status r = "error") /\
            t = mapRowToTask r.
Proof.
  unfold getTasksNeedingSync. rewrite list_elem_of_fmap.
  unfold order_by_asc. setoid_rewrite merge_sort_Permutation.
  setoid_rewrite elem_of_select. setoid_rewrite andb_true_iff.
  setoid_rewrite orb_true_iff. unfold eqs. setoid_rewrite bool_decide_eq_true.
  setoid_rewrite Z.eqb_eq.
  split; intros (r & H); exists r; tauto.
Qed.

(** [getAllTasks] lists the rows that are not flagged deleted, each
    once, newest first: a task is listed exactly when it is such a row,
    there are as many tasks as such rows, and none is flagged deleted. *)
Theorem getAllTasks_lists_live_rows (w : World) :
  (forall t, t ∈ getAllTasks w <->
             exists r, r ∈ tasks w /\ t_is_deleted r = 0%Z /\ t = mapRowToTask r) /\
  length (getAllTasks w) = length (sql_select (fun r => (t_is_deleted r =? 0)%Z) (tasks w)) /\
  StronglySorted newest_first (getAllTasks w) /\
  (forall t, t ∈ getAllTasks w -> is_deleted t = false).
Proof.
  split; [apply getAllTasks_elem|]. split; [|split].
  - unfold getAllTasks, order_by_desc. by rewrite length_fmap, merge_sort_Permutation.
  - unfold getAllTasks.
    eapply StronglySorted_fmap; [|apply order_by_desc_sorted].
    intros a b Hab. exact Hab.
  - intros t Ht. apply getAllTasks_elem in Ht as (r & _ & Hdel & ->). cbn. by rewrite Hdel.
Qed.

(** [getTasksNeedingSync] lists the rows that are not flagged deleted
    and whose status is [pending] or [error], least recently updated
    first; a task with any other status, [synced] among them, is never
    listed. *)
Theorem getTasksNeedingSync_lists_unsynced_rows (w : World) :
  (forall t, t ∈ getTasksNeedingSync w <->
             exists r, r ∈ tasks w /\ t_is_deleted r = 0%Z /\
                       (t_sync_status r = "pending" \/ t_sync_status r = "error") /\
                       t = mapRowToTask r) /\
  StronglySorted least_recently_updated_first (getTasksNeedingSync w) /\
  (forall t, t ∈ getTasksNeedingSync w -> t ∈ getAllTasks w) /\
  (forall t, t ∈ getTasksNeedingSync w -> sync_status t <> "synced").
Proof.
  split; [apply getTasksNeedingSync_elem|]. split; [|split].
  - unfold getTasksNeedingSync.
    eapply StronglySorted_fmap; [|apply order_by_asc_sorted].
    intros a b Hab. exact Hab.
  - intros t Ht. apply getTasksNeedingSync_elem in Ht as (r & Hin & Hdel & _ & ->).
    apply getAllTasks_elem. eauto.
  - intros t Ht. apply getTasksNeedingSync_elem in Ht as (r & _ & _ & [Hs | Hs] & ->);
      cbn; rewrite Hs; discriminate.
Qed.

(** ** The conflict resolver, the upsert and the bookkeeping *)

(** [resolveConflict] never merges: it returns one of its two arguments
    as it is, or throws; and it throws exactly when one of the two dates
    is invalid. *)
Theorem resolveConflict_returns_a_version_or_throws
    (Date_getTime : string -> option Z) (localTask serverTask : Task) :
  (resolveConflict Date_getTime localTask serverTask = Returned localTask \/
   resolveConflict Date_getTime localTask serverTask = Returned serverTask \/
   resolveConflict Date_getTime localTask serverTask = Thrown RangeError_invalid_time) /\
  (resolveConflict Date_getTime localTask serverTask = Thrown RangeError_invalid_time <->
   Date_getTime (updated_at localTask) = None \/
   Date_getTime (updated_at serverTask) = None).
Proof.
  unfold resolveConflict.
  destruct (Date_getTime (updated_at localTask)) as [tl|],
           (Date_getTime (updated_at serverTask)) as [ts|]; cbn.
  - split; [destruct (tl <? ts)%Z; auto|]. split; [discriminate | intros [?|?]; discriminate].
  - split; [auto|]. split; auto.
  - split; [auto|]. split; auto.
  - split; [auto|]. split; auto.
Qed.

Lemma operation_name_inj (a b : Operation) : operation_name a = operation_name b -> a = b.
Proof. destruct a, b; cbn; congruence. Qed.

Section UpsertScope.

Variable uuidv4 : nat -> string.
Variable CURRENT_TIMESTAMP : nat -> string.
Variable JSON_stringify : PartialTask -> string.

Lemma enqueue_other_pairs (taskId : string) (operation : Operation) (data : PartialTask)
    (w : World) (q : SyncQueueItem) :
  pair_key q <> (taskId, operation_name operation) ->
  q ∈ sync_queue (addToSyncQueue uuidv4 CURRENT_TIMESTAMP JSON_stringify
                    taskId operation data w) <->
  q ∈ sync_queue w.
Proof.
  intros Hkey.
  assert (same_pair taskId operation q = false) as Hq.
  { destruct (same_pair taskId operation q) eqn:E; [|reflexivity].
    by apply same_pair_key in E. }
  destruct (sql_select (same_pair taskId operation) (sync_queue w)) as [|r0 l] eqn:E.
  - rewrite enqueue_fresh by exact E. cbn [sync_queue with_queue bump].
    rewrite elem_of_app, list_elem_of_singleton. split; [|auto].
    intros [H | ->]; [exact H|]. by exfalso; apply Hkey.
  - rewrite enqueue_existing by (rewrite E; done). cbn [sync_queue with_queue bump].
    apply sql_update_other; [reflexivity | exact Hq].
Qed.

End UpsertScope.

(** [addToSyncQueue] writes one pair only: the items of every other
    (task id, operation) pair are as before, no item is removed, at most
    one is added, and the task table is not touched. *)
Theorem addToSyncQueue_leaves_other_pairs
    (uuidv4 CURRENT_TIMESTAMP : nat -> string) (JSON_stringify : PartialTask -> string)
    (taskId : string) (operation : Operation) (data : PartialTask) (w : World) :
  let w' := addToSyncQueue uuidv4 CURRENT_TIMESTAMP JSON_stringify taskId operation data w in
  (forall q, pair_key q <> (taskId, operation_name operation) ->
             q ∈ sync_queue w' <-> q ∈ sync_queue w) /\
  (length (sync_queue w) <= length (sync_queue w') <= S (length (sync_queue w)))%nat /\
  tasks w' = tasks w.
Proof.
  cbn zeta. split; [intros q Hq; by apply enqueue_other_pairs|].
  destruct (sql_select (same_pair taskId operation) (sync_queue w)) as [|r0 l] eqn:E.
  - rewrite enqueue_fresh by exact E. cbn [sync_queue with_queue bump tasks].
    rewrite length_app. cbn. split; [lia | reflexivity].
  - rewrite enqueue_existing by (rewrite E; done). cbn [sync_queue with_queue bump tasks].
    unfold sql_update. rewrite length_fmap. split; [lia | reflexivity].
Qed.

(** Sorting commutes with a rewriting of the rows that keeps their
    order. *)
Section SortMap.

Context {A : Type} (R : relation A) `{!forall x y, Decision (R x y)}.
Variable f : A -> A.
Hypothesis f_keeps_order : forall a b, R (f a) (f b) <-> R a b.

Local Abbreviation on_stack st :=
  ((fun o : option (list A) => (fun l : list A => f <$> l) <$> o) <$> st).

Lemma list_merge_fmap (l1 l2 : list A) :
  list_merge R (f <$> l1) (f <$> l2) = f <$> list_merge R l1 l2.
Proof.
  revert l2. induction l1 as [|x1 l1 IH1]; intros l2; [by destruct l2|].
  induction l2 as [|x2 l2 IH2]; [reflexivity|].
  cbn [fmap list_fmap]. cbn [list_merge].
  rewrite (decide_ext _ _ _ _ (f_keeps_order x1 x2)).
  destruct (decide (R x1 x2)); cbn [fmap list_fmap]; f_equal.
  - apply (IH1 (x2 :: l2)).
  - apply IH2.
Qed.

Lemma merge_list_to_stack_fmap (st : list (option (list A))) (l : list A) :
  merge_list_to_stack R (on_stack st) (f <$> l) = on_stack (merge_list_to_stack R st l).
Proof.
  revert l. induction st as [|[l'|] st IH]; intros l.
  - reflexivity.
  - change (on_stack (Some l' :: st)) with (Some (f <$> l') :: on_stack st).
    cbn [merge_list_to_stack]. rewrite list_merge_fmap, IH. reflexivity.
  - reflexivity.
Qed.

Lemma merge_stack_fmap (st : list (option (list A))) :
  merge_stack R (on_stack st) = f <$> merge_stack R st.
Proof.
  induction st as [|[l'|] st IH].
  - reflexivity.
  - change (on_stack (Some l' :: st)) with (Some (f <$> l') :: on_stack st).
    cbn [merge_stack]. rewrite IH. apply list_merge_fmap.
  - change (on_stack (None :: st)) with (None :: on_stack st).
    cbn [merge_stack]. exact IH.
Qed.

Lemma merge_sort_aux_fmap (st : list (option (list A))) (l : list A) :
  merge_sort_aux R (on_stack st) (f <$> l) = f <$> merge_sort_aux R st l.
Proof.
  revert st. induction l as [|x l IH]; intros st.
  - apply merge_stack_fmap.
  - cbn [fmap list_fmap merge_sort_aux]. rewrite <- IH. f_equal.
    apply (merge_list_to_stack_fmap st [x]).
Qed.

Lemma merge_sort_fmap (l : list A) : merge_sort R (f <$> l) = f <$> merge_sort R l.
Proof. apply (merge_sort_aux_fmap [] l). Qed.

End SortMap.

(** Queueing again a change that is already queued overwrites the
    payload and resets the retry count, and no more: the identifier of
    the item, its enqueue time, and so its place in the drain, its last
    error message and its status are kept, so an item marked [failed]
    stays marked. *)
Theorem requeue_keeps_identity_and_status
    (uuidv4 CURRENT_TIMESTAMP : nat -> string) (JSON_stringify : PartialTask -> string)
    (taskId : string) (operation : Operation) (data : PartialTask) (w : World) :
  sql_select (same_pair taskId operation) (sync_queue w) <> [] ->
  let w' := addToSyncQueue uuidv4 CURRENT_TIMESTAMP JSON_stringify taskId operation data w in
  item_identity <$> sync_queue w' = item_identity <$> sync_queue w /\
  q_status <$> sync_queue w' = q_status <$> sync_queue w /\
  q_error_message <$> sync_queue w' = q_error_message <$> sync_queue w /\
  item_identity <$> drain w' = item_identity <$> drain w /\
  Forall (fun q => q_data q = JSON_stringify data /\ q_retry_count q = 0%Z)
    (sql_select (same_pair taskId operation) (sync_queue w')).
Proof.
  intros Hne. cbn zeta.
  pose proof (enqueue_select uuidv4 CURRENT_TIMESTAMP JSON_stringify taskId operation data w)
    as (_ & Hall & _).
  split; [|split; [|split; [|split; [|exact Hall]]]];
    rewrite enqueue_existing by exact Hne; cbn [sync_queue with_queue bump];
    try (by apply fmap_sql_update).
  unfold drain. cbn [sync_queue with_queue]. unfold order_by_asc, sql_update.
  rewrite merge_sort_fmap.
  - rewrite <- list_fmap_compose. apply list_fmap_ext. intros _ q _. cbn.
    by destruct (same_pair taskId operation q).
  - intros a b. by destruct (same_pair _ _ a), (same_pair _ _ b).
Qed.


(** A failure that leaves the retry count under [MAX_RETRIES] touches
    neither the task table nor the status of any item: the item stays as
    it is in the queue, with its count and message updated, and the task
    keeps its status. *)
Theorem failure_below_ceiling_keeps_task
    (CURRENT_TIMESTAMP : nat -> string) (item : SyncQueueItem) (message : string)
    (w : World) :
  (q_retry_count item + 1 < MAX_RETRIES)%Z ->
  let w' := handleSyncError CURRENT_TIMESTAMP item message w in
  tasks w' = tasks w /\
  q_status <$> sync_queue w' = q_status <$> sync_queue w /\
  length (sync_queue w') = length (sync_queue w) /\
  (forall q, q ∈ sync_queue w' -> q_id q = q_id item ->
             q_retry_count q = (q_retry_count item + 1)%Z /\
             (q_retry_count q < MAX_RETRIES)%Z /\
             q_error_message q = Some message).
Proof.
  intros Hlt. cbn zeta.
  destruct (handleSyncError_below CURRENT_TIMESTAMP item message w Hlt) as [Hst Ht].
  split; [exact Ht|]. split; [exact Hst|]. split.
  - rewrite <- (length_fmap q_status), Hst. by rewrite length_fmap.
  - intros q Hin Hid.
    destruct (handleSyncError_row CURRENT_TIMESTAMP item message w q Hin Hid) as (H1 & H2 & _).
    rewrite H1. done.
Qed.

(** A failure that brings the retry count to [MAX_RETRIES] or beyond
    marks the rows of the item [failed] and the rows of the referenced
    task [error]; the item is still in the queue, and what the user
    entered in the task is not touched. *)
Theorem failure_at_ceiling_marks_item_and_task
    (CURRENT_TIMESTAMP : nat -> string) (item : SyncQueueItem) (message : string)
    (w : World) :
  (MAX_RETRIES <= q_retry_count item + 1)%Z ->
  let w' := handleSyncError CURRENT_TIMESTAMP item message w in
  (forall q, q ∈ sync_queue w' -> q_id q = q_id item ->
             q_status q = Some "failed" /\
             q_retry_count q = (q_retry_count item + 1)%Z /\
             q_error_message q = Some message) /\
  (forall r, r ∈ tasks w' -> t_id r = q_task_id item -> t_sync_status r = "error") /\
  (forall r, t_id r <> q_task_id item -> r ∈ tasks w' <-> r ∈ tasks w) /\
  q_id <$> sync_queue w' = q_id <$> sync_queue w /\
  task_data <$> tasks w' = task_data <$> tasks w.
Proof.
  intros Hge. cbn zeta. split; [|split; [|split; [|split]]].
  - intros q Hin Hid.
    destruct (handleSyncError_row CURRENT_TIMESTAMP item message w q Hin Hid) as (H1 & H2 & H3).
    split; [by apply H3 | by split].
  - intros r Hin Hid. by eapply handleSyncError_ceiling.
  - intros r Hr. unfold handleSyncError, read_timestamp. cbn beta iota zeta.
    destruct (Z.leb_spec MAX_RETRIES (q_retry_count item + 1)); [|lia].
    rewrite updateSyncStatus_other by exact Hr. reflexivity.
  - unfold handleSyncError, read_timestamp. cbn beta iota zeta.
    destruct (Z.leb_spec MAX_RETRIES (q_retry_count item + 1)); [|lia].
    rewrite updateSyncStatus_queue. cbn [sync_queue with_queue bump].
    by apply fmap_sql_update.
  - unfold handleSyncError, read_timestamp. cbn beta iota zeta.
    destruct (Z.leb_spec MAX_RETRIES (q_retry_count item + 1)); [|lia].
    cbn [updateSyncStatus tasks with_tasks with_queue bump]. by apply fmap_sql_update.
Qed.

(** [updateSyncStatus] writes the status, and the marks of the sync when
    it is told to: what the user entered is kept in every row, the rows of
    other tasks are exactly as before, and the queue is not touched; with
    the status [error] and no server data, the last-synced time and the
    server identifier are kept too, and the clock is not read. *)
Theorem updateSyncStatus_keeps_the_data
    (CURRENT_TIMESTAMP : nat -> string) (taskId : string) (status : SyncedOrError)
    (serverData : option PartialTask) (w : World) :
  let w' := updateSyncStatus CURRENT_TIMESTAMP taskId status serverData w in
  let e := updateSyncStatus CURRENT_TIMESTAMP taskId error None w in
  task_data <$> tasks w' = task_data <$> tasks w /\
  (fun r => (t_is_deleted r, t_updated_at r)) <$> tasks w'
  = (fun r => (t_is_deleted r, t_updated_at r)) <$> tasks w /\
  (forall r, t_id r <> taskId -> r ∈ tasks w' <-> r ∈ tasks w) /\
  sync_queue w' = sync_queue w /\
  sync_marks <$> tasks e = sync_marks <$> tasks w /\
  tick e = tick w.
Proof.
  cbn zeta. split; [|split; [|split; [|split; [|split]]]].
  - destruct status; cbn [updateSyncStatus read_timestamp tasks with_tasks bump];
      by apply fmap_sql_update.
  - destruct status; cbn [updateSyncStatus read_timestamp tasks with_tasks bump];
      by apply fmap_sql_update.
  - intros r Hr. by apply updateSyncStatus_other.
  - apply updateSyncStatus_queue.
  - cbn [updateSyncStatus tasks with_tasks]. by apply fmap_sql_update.
  - reflexivity.
Qed.

(** ** The conflict branch and exceptions inside a batch *)

Section ConflictBranch.

Variable Date_now : nat -> string.
Variable CURRENT_TIMESTAMP : nat -> string.
Variable JSON_parse : string -> string + Task.
Variable Date_getTime : string -> option Z.

Lemma getTask_after_updateSyncStatus (taskId : string) (status : SyncedOrError)
    (serverData : option PartialTask) (w : World) (t : Task) :
  getTask taskId w = Some t ->
  getTask taskId (updateSyncStatus CURRENT_TIMESTAMP taskId status serverData w)
  = Some {| id := id t; title := title t; description := description t;
            completed := completed t; is_deleted := is_deleted t;
            sync_status := status_name status;
            created_at := created_at t; updated_at := updated_at t;
            last_synced_at :=
              match status with
              | synced => Some (CURRENT_TIMESTAMP (tick w))
              | error => last_synced_at t
              end;
            server_id :=
              match truthy_string (serverData ≫= p_id) with
              | Some s => Some s
              | None => server_id t
              end |}.
Proof.
  intros Ht. destruct (getTask_some_inv taskId w t Ht) as (r0 & rest & Hsel & -> & Hid & _).
  rewrite getTask_select.
  destruct status; cbn [updateSyncStatus read_timestamp tasks with_tasks bump];
    rewrite select_after_update by reflexivity;
    rewrite Hsel; cbn [fmap list_fmap head option_fmap option_map]; unfold eqs;
    rewrite bool_decide_eq_true_2 by exact Hid; reflexivity.
Qed.

Lemma process_item_conflict (resp : BatchSyncResponse) (item : SyncQueueItem)
    (st : SyncState) (r : ResponseItem) (localTask serverTask : Task) (tl ts : Z) :
  find_response resp item = Some r ->
  truthy (r_success r) = false ->
  truthy (r_conflict r) = true ->
  JSON_parse (q_data item) = inr localTask ->
  r_serverData r = Some serverTask ->
  Date_getTime (updated_at localTask) = Some tl ->
  Date_getTime (updated_at serverTask) = Some ts ->
  let winner := if (tl <? ts)%Z then serverTask else localTask in
  process_item Date_now CURRENT_TIMESTAMP JSON_parse Date_getTime resp item st
  = (None,
     {| world :=
          remove_item item
            (updateSyncStatus CURRENT_TIMESTAMP (q_task_id item) synced
               (Some (partial_of_task winner))
               (updateTask Date_now (id winner) (partial_of_task winner) (world st)).2);
        result := incr_conflicts (result st) |}).
Proof.
  intros Hr Hs Hc Hparse Hserver Hl Hsv. cbn zeta.
  unfold process_item. rewrite Hr. cbn -[truthy truthy_string resolveConflict updateTask].
  rewrite Hs, Hc, Hparse, Hserver.
  rewrite (resolveConflict_valid_dates _ _ _ _ _ Hl Hsv). reflexivity.
Qed.

End ConflictBranch.

(** When the entry found for an item reports a conflict and not
    success, the payload parses, the entry carries the server version and
    both dates are valid, the body of the loop completes normally: the
    conflict count grows by one, the queue loses the rows of the item, no
    task row is added or removed, and the rows of the referenced task are
    [synced] with the identifier of the winner as server identifier.  If
    the winner carries the identifier of the referenced task and that task
    is not deleted, the task then reads with the title, the description
    and the completion flag of the winner. *)
Theorem conflict_entry_persists_winner
    (Date_now CURRENT_TIMESTAMP : nat -> string)
    (JSON_parse : string -> string + Task) (Date_getTime : string -> option Z)
    (resp : BatchSyncResponse) (item : SyncQueueItem) (st : SyncState)
    (r : ResponseItem) (localTask serverTask : Task) (tl ts : Z) :
  find_response resp item = Some r ->
  truthy (r_success r) = false ->
  truthy (r_conflict r) = true ->
  JSON_parse (q_data item) = inr localTask ->
  r_serverData r = Some serverTask ->
  Date_getTime (updated_at localTask) = Some tl ->
  Date_getTime (updated_at serverTask) = Some ts ->
  let winner := if (tl <? ts)%Z then serverTask else localTask in
  let out := process_item Date_now CURRENT_TIMESTAMP JSON_parse Date_getTime resp item st in
  out.1 = None /\
  result out.2
  = mkResult (success (result st)) (failed (result st)) (S (conflicts (result st)))
      (total (result st)) /\
  (forall q, q ∈ sync_queue (world out.2) <->
             q ∈ sync_queue (world st) /\ q_id q <> q_id item) /\
  t_id <$> tasks (world out.2) = t_id <$> tasks (world st) /\
  (forall row, row ∈ tasks (world out.2) -> t_id row = q_task_id item ->
     t_sync_status row = "synced" /\
     (forall sid, truthy_string (Some (id winner)) = Some sid ->
                  t_server_id row = Some sid)) /\
  (id winner = q_task_id item ->
   forall old, getTask (q_task_id item) (world st) = Some old ->
   exists t, getTask (q_task_id item) (world out.2) = Some t /\
             title t = title winner /\ description t = description winner /\
             completed t = completed winner /\ sync_status t = "synced" /\
             created_at t = created_at old).
Proof.
  intros Hr Hs Hc Hparse Hserver Hl Hsv winner out. subst out.
  rewrite (process_item_conflict _ _ _ _ _ _ _ _ _ _ _ _ Hr Hs Hc Hparse Hserver Hl Hsv).
  fold winner. cbn [fst snd world result].
  split; [reflexivity|]. split; [reflexivity|]. split; [|split; [|split]].
  - intros q. rewrite remove_item_queue, updateSyncStatus_queue.
    unfold updateTask. destruct (getTask (id winner) (world st)); reflexivity.
  - rewrite remove_item_tasks, updateSyncStatus_ids.
    unfold updateTask. destruct (getTask (id winner) (world st)); [|reflexivity].
    cbn [snd read_now tasks with_tasks bump]. by apply fmap_sql_update.
  - intros row Hin Hid. rewrite remove_item_tasks in Hin.
    destruct (updateSyncStatus_row _ _ _ _ _ _ Hin Hid) as (H1 & _ & H3).
    split; [exact H1 | exact H3].
  - intros Hwin old Hold. rewrite <- Hwin in Hold.
    destruct (updateTask_live Date_now (id winner) (partial_of_task winner) (world st) old Hold)
      as (_ & Hget & _).
    cbn zeta in Hget. rewrite <- Hwin.
    eexists. split.
    + change (getTask (id winner) (remove_item item ?w)) with (getTask (id winner) w).
      apply getTask_after_updateSyncStatus. exact Hget.
    + cbn. done.
Qed.

(** When the body of the loop throws in the middle of a batch, the catch
    block records a failure for every item of the batch, the ones the
    loop had already handled among them: the failed count grows by the
    size of the whole batch on top of what the loop had counted, and
    [handleSyncError] runs over every item from the state the exception
    left. *)
Theorem exception_in_batch_fails_whole_batch
    (Date_now CURRENT_TIMESTAMP : nat -> string)
    (JSON_parse : string -> string + Task) (Date_getTime : string -> option Z)
    (processBatch : nat -> list SyncQueueItem -> string + BatchSyncResponse)
    (st st2 : SyncState) (batch : list SyncQueueItem) (resp : BatchSyncResponse)
    (message : string) :
  processBatch (tick (world st)) batch = inr resp ->
  process_items Date_now CURRENT_TIMESTAMP JSON_parse Date_getTime resp batch
    (mkState (bump (world st)) (result st)) = (Some message, st2) ->
  let st' := process_batch Date_now CURRENT_TIMESTAMP JSON_parse Date_getTime processBatch
               st batch in
  world st'
  = foldl (fun w item => handleSyncError CURRENT_TIMESTAMP item message w) (world st2) batch /\
  failed (result st') = (failed (result st2) + length batch)%nat /\
  success (result st') = success (result st2) /\
  conflicts (result st') = conflicts (result st2) /\
  total (result st') = total (result st2).
Proof.
  intros Hresp Hloop. cbn zeta. unfold process_batch. rewrite Hresp, Hloop.
  rewrite fail_batch_world, fail_batch_result. done.
Qed.

(** ** Accounting of a pass *)

Section Accounting.

Variable Date_now : nat -> string.
Variable CURRENT_TIMESTAMP : nat -> string.
Variable JSON_parse : string -> string + Task.
Variable Date_getTime : string -> option Z.
Variable processBatch : nat -> list SyncQueueItem -> string + BatchSyncResponse.

Local Abbreviation step_item := (process_item Date_now CURRENT_TIMESTAMP JSON_parse Date_getTime).
Local Abbreviation step_items := (process_items Date_now CURRENT_TIMESTAMP JSON_parse Date_getTime).
Local Abbreviation step_batch :=
  (process_batch Date_now CURRENT_TIMESTAMP JSON_parse Date_getTime processBatch).

(** The body of the loop either counts the item once or throws and
    leaves the state as it was. *)
Lemma process_item_counted (resp : BatchSyncResponse) (item : SyncQueueItem) (st : SyncState) :
  match step_item resp item st with
  | (None, st') => counted (result st') = S (counted (result st))
  | (Some _, st') => st' = st
  end.
Proof.
  unfold process_item, counted. repeat case_match; simplify_eq; cbn; try reflexivity; lia.
Qed.

Lemma process_items_counted (resp : BatchSyncResponse) (batch : list SyncQueueItem)
    (st : SyncState) :
  match step_items resp batch st with
  | (None, st') => counted (result st') = (counted (result st) + length batch)%nat
  | (Some _, st') => (counted (result st) <= counted (result st'))%nat
  end.
Proof.
  revert st. induction batch as [|item batch IH]; intros st; cbn [process_items length].
  - lia.
  - pose proof (process_item_counted resp item st) as Hitem.
    destruct (step_item resp item st) as [[m|] st1].
    + subst st1. lia.
    + specialize (IH st1). destruct (step_items resp batch st1) as [[m|] st2]; lia.
Qed.

Lemma fail_batch_counted (message : string) (batch : list SyncQueueItem) (st : SyncState) :
  counted (result (fail_batch CURRENT_TIMESTAMP message batch st))
  = (counted (result st) + length batch)%nat.
Proof. rewrite fail_batch_result. unfold counted. cbn. lia. Qed.

Lemma process_batch_counted (st : SyncState) (batch : list SyncQueueItem) :
  (counted (result st) + length batch <= counted (result (step_batch st batch)))%nat.
Proof.
  unfold process_batch. destruct (processBatch _ _) as [m | resp].
  - rewrite fail_batch_counted. cbn. lia.
  - pose proof (process_items_counted resp batch (mkState (bump (world st)) (result st)))
      as Hitems.
    destruct (step_items resp batch _) as [[m|] st2]; cbn [result] in Hitems.
    + rewrite fail_batch_counted. lia.
    + lia.
Qed.

Lemma process_batches_counted (batches : list (list SyncQueueItem)) (st : SyncState) :
  (counted (result st) + length (concat batches)
   <= counted (result (foldl step_batch st batches)))%nat.
Proof.
  revert st. induction batches as [|b batches IH]; intros st; cbn [foldl concat].
  - cbn. lia.
  - rewrite length_app. pose proof (process_batch_counted st b). specialize (IH (step_batch st b)).
    lia.
Qed.

Lemma process_item_no_conflict (resp : BatchSyncResponse) (item : SyncQueueItem)
    (st : SyncState) :
  Forall (fun entry => truthy (r_conflict entry) = false) (results resp) ->
  exists st', step_item resp item st = (None, st') /\
              conflicts (result st') = conflicts (result st) /\
              counted (result st') = S (counted (result st)).
Proof.
  intros Hall. unfold process_item.
  destruct (find_response resp item) as [r|] eqn:Hfind.
  - assert (truthy (r_conflict r) = false) as Hc.
    { unfold find_response in Hfind. apply find_some in Hfind as [Hin _].
      rewrite Forall_forall in Hall. apply Hall. by apply list_elem_of_In. }
    cbn -[truthy truthy_string]. rewrite Hc.
    destruct (truthy (r_success r)); eexists; (split; [reflexivity|]);
      unfold counted; cbn; split; (reflexivity || lia).
  - cbn. eexists. split; [reflexivity|]. unfold counted; cbn. split; (reflexivity || lia).
Qed.

Lemma process_items_no_conflict (resp : BatchSyncResponse) (batch : list SyncQueueItem)
    (st : SyncState) :
  Forall (fun entry => truthy (r_conflict entry) = false) (results resp) ->
  exists st', step_items resp batch st = (None, st') /\
              conflicts (result st') = conflicts (result st) /\
              counted (result st') = (counted (result st) + length batch)%nat.
Proof.
  intros Hall. revert st. induction batch as [|item batch IH]; intros st.
  - exists st. cbn. repeat split; lia.
  - destruct (process_item_no_conflict resp item st Hall) as (st1 & Hitem & Hc1 & Hn1).
    destruct (IH st1) as (st2 & Hrest & Hc2 & Hn2).
    exists st2. cbn [process_items length]. rewrite Hitem. split; [exact Hrest|].
    split; [congruence | lia].
Qed.

Lemma process_batch_no_conflict (st : SyncState) (batch : list SyncQueueItem) :
  no_conflicts processBatch ->
  conflicts (result (step_batch st batch)) = conflicts (result st) /\
  counted (result (step_batch st batch)) = (counted (result st) + length batch)%nat.
Proof.
  intros Hno. unfold process_batch.
  destruct (processBatch (tick (world st)) batch) as [m | resp] eqn:Hresp.
  - rewrite fail_batch_counted, fail_batch_result. done.
  - destruct (process_items_no_conflict resp batch (mkState (bump (world st)) (result st))
                (Hno _ _ _ Hresp)) as (st2 & -> & Hc & Hn).
    done.
Qed.

Lemma process_batches_no_conflict (batches : list (list SyncQueueItem)) (st : SyncState) :
  no_conflicts processBatch ->
  conflicts (result (foldl step_batch st batches)) = conflicts (result st) /\
  counted (result (foldl step_batch st batches))
  = (counted (result st) + length (concat batches))%nat.
Proof.
  intros Hno. revert st. induction batches as [|b batches IH]; intros st; cbn [foldl concat].
  - cbn. split; [reflexivity | lia].
  - destruct (IH (step_batch st b)) as [Hc Hn].
    destruct (process_batch_no_conflict st b Hno) as [Hc1 Hn1].
    rewrite length_app. split; [congruence | lia].
Qed.

End Accounting.

(** For a positive batch size, every drained item is counted at least
    once: the three counts of the result add up to at least [total].
    (They add up to more when the body of a batch throws after it has
    counted some items.) *)
Theorem every_drained_item_is_counted
    (Date_now CURRENT_TIMESTAMP : nat -> string)
    (JSON_parse : string -> string + Task) (Date_getTime : string -> option Z)
    (processBatch : nat -> list SyncQueueItem -> string + BatchSyncResponse)
    (SYNC_BATCH_SIZE : nat) (w : World) :
  (0 < SYNC_BATCH_SIZE)%nat ->
  exists r w',
    sync Date_now CURRENT_TIMESTAMP JSON_parse Date_getTime processBatch SYNC_BATCH_SIZE w
    = Some (r, w') /\
    (total r <= success r + failed r + conflicts r)%nat.
Proof.
  intros Hpos.
  destruct (sync_queue w) as [|q0 queue] eqn:Hq.
  - rewrite sync_empty by exact Hq. eexists _, _. split; [reflexivity|]. cbn. lia.
  - destruct (make_batches_spec SYNC_BATCH_SIZE Hpos (drain w))
      as (batches & Hb & Hcat & _).
    rewrite (sync_unfold _ _ _ _ _ _ _ batches Hb) by (rewrite Hq; done).
    cbn zeta. eexists _, _. split; [reflexivity|].
    rewrite process_batches_total. cbn [result total].
    pose proof (process_batches_counted Date_now CURRENT_TIMESTAMP JSON_parse Date_getTime
                  processBatch batches (mkState w (mkResult 0 0 0 (length (drain w)))))
      as Hn.
    rewrite Hcat in Hn. unfold counted in Hn. cbn [result success failed conflicts] in Hn.
    lia.
Qed.

(** For a positive batch size and a transmitter that never reports a
    conflict, every drained item is counted exactly once, as a success or
    as a failure. *)
Theorem pass_without_conflicts_counts_each_item_once
    (Date_now CURRENT_TIMESTAMP : nat -> string)
    (JSON_parse : string -> string + Task) (Date_getTime : string -> option Z)
    (processBatch : nat -> list SyncQueueItem -> string + BatchSyncResponse)
    (SYNC_BATCH_SIZE : nat) (w : World) :
  (0 < SYNC_BATCH_SIZE)%nat ->
  no_conflicts processBatch ->
  exists r w',
    sync Date_now CURRENT_TIMESTAMP JSON_parse Date_getTime processBatch SYNC_BATCH_SIZE w
    = Some (r, w') /\
    conflicts r = 0%nat /\
    (success r + failed r = total r)%nat /\
    total r = length (sync_queue w).
Proof.
  intros Hpos Hno.
  destruct (sync_queue w) as [|q0 queue] eqn:Hq.
  - rewrite sync_empty by exact Hq. eexists _, _. split; [reflexivity|]. cbn. done.
  - destruct (make_batches_spec SYNC_BATCH_SIZE Hpos (drain w))
      as (batches & Hb & Hcat & _).
    rewrite (sync_unfold _ _ _ _ _ _ _ batches Hb) by (rewrite Hq; done).
    cbn zeta. eexists _, _. split; [reflexivity|].
    rewrite process_batches_total. cbn [result total].
    destruct (process_batches_no_conflict Date_now CURRENT_TIMESTAMP JSON_parse Date_getTime
                processBatch batches (mkState w (mkResult 0 0 0 (length (drain w)))) Hno)
      as [Hc Hn].
    rewrite Hcat in Hn. unfold counted in Hn. cbn [result success failed conflicts] in Hc, Hn.
    rewrite drain_length, Hq in *. cbn [length] in *. repeat split; lia.
Qed.

(** A pass returns the all-zero result and leaves the world as it was
    exactly when the queue is empty; then it returns before it reads the
    batch size or calls the transmitter. *)
Theorem zero_result_iff_empty_queue
    (Date_now CURRENT_TIMESTAMP : nat -> string)
    (JSON_parse : string -> string + Task) (Date_getTime : string -> option Z)
    (processBatch : nat -> list SyncQueueItem -> string + BatchSyncResponse)
    (SYNC_BATCH_SIZE : nat) (w : World) :
  sync_queue w = [] <->
  sync Date_now CURRENT_TIMESTAMP JSON_parse Date_getTime processBatch SYNC_BATCH_SIZE w
  = Some (mkResult 0 0 0 0, w).
Proof.
  split; [apply sync_empty|].
  intros Hsync. destruct (sync_queue w) as [|q0 queue] eqn:Hq; [reflexivity|]. exfalso.
  unfold sync in Hsync. rewrite drain_length, Hq in Hsync. cbn [length Nat.eqb] in Hsync.
  destruct (make_batches SYNC_BATCH_SIZE (drain w)) as [batches|]; [|discriminate].
  cbn in Hsync. injection Hsync as Hres _.
  apply (f_equal total) in Hres. rewrite process_batches_total in Hres. discriminate.
Qed.

Lemma batch_loop_zero {A} (fuel i : nat) (queueItems : list A) :
  (i < length queueItems)%nat -> batch_loop 0 fuel i queueItems = None.
Proof.
  intros Hi. induction fuel as [|fuel IH]; cbn [batch_loop];
    destruct (Nat.ltb_spec i (length queueItems)); try lia; [reflexivity|].
  rewrite Nat.add_0_r, IH. reflexivity.
Qed.

(** With a batch size of zero and something in the queue, the loop that
    cuts the batches never ends, whatever the number of rounds it is
    given, and the pass returns nothing. *)
Theorem zero_batch_size_never_returns
    (Date_now CURRENT_TIMESTAMP : nat -> string)
    (JSON_parse : string -> string + Task) (Date_getTime : string -> option Z)
    (processBatch : nat -> list SyncQueueItem -> string + BatchSyncResponse)
    (w : World) :
  sync_queue w <> [] ->
  (forall fuel, batch_loop 0 fuel 0 (drain w) = None) /\
  sync Date_now CURRENT_TIMESTAMP JSON_parse Date_getTime processBatch 0 w = None.
Proof.
  intros Hne.
  assert (0 < length (drain w))%nat as Hlen.
  { rewrite drain_length. destruct (sync_queue w); [done | cbn; lia]. }
  split; [intros fuel; by apply batch_loop_zero|].
  unfold sync. destruct (Nat.eqb_spec (length (drain w)) 0); [lia|].
  unfold make_batches. by rewrite batch_loop_zero.
Qed.

(** ** What a pass leaves alone *)

Section PassFrame.

Variable Date_now : nat -> string.
Variable CURRENT_TIMESTAMP : nat -> string.
Variable JSON_parse : string -> string + Task.
Variable Date_getTime : string -> option Z.

Lemma pass_frame_refl (w : World) : pass_frame w w.
Proof. split; reflexivity. Qed.

Lemma pass_frame_trans (w1 w2 w3 : World) :
  pass_frame w1 w2 -> pass_frame w2 w3 -> pass_frame w1 w3.
Proof. intros [H1 H2] [H3 H4]. split; [by etrans | congruence]. Qed.

Lemma pass_frame_bump (w : World) : pass_frame w (bump w).
Proof. split; reflexivity. Qed.

Lemma handleSyncError_frame (item : SyncQueueItem) (message : string) (w : World) :
  item_content <$> sync_queue (handleSyncError CURRENT_TIMESTAMP item message w)
  = item_content <$> sync_queue w /\
  t_id <$> tasks (handleSyncError CURRENT_TIMESTAMP item message w) = t_id <$> tasks w.
Proof.
  unfold handleSyncError, read_timestamp. cbn beta iota zeta.
  destruct (MAX_RETRIES <=? q_retry_count item + 1)%Z.
  - rewrite updateSyncStatus_queue, updateSyncStatus_ids. cbn [sync_queue tasks with_queue bump].
    split; [by apply fmap_sql_update | reflexivity].
  - cbn [sync_queue tasks with_queue bump]. split; [by apply fmap_sql_update | reflexivity].
Qed.

Lemma updateTask_ids (i : string) (updates : PartialTask) (w : World) :
  t_id <$> tasks (updateTask Date_now i updates w).2 = t_id <$> tasks w.
Proof.
  unfold updateTask. destruct (getTask i w); [|reflexivity].
  cbn [snd read_now tasks with_tasks bump]. by apply fmap_sql_update.
Qed.

Lemma content_sql_delete (cond : SyncQueueItem -> bool) (queue : list SyncQueueItem) :
  item_content <$> sql_delete cond queue `sublist_of` item_content <$> queue.
Proof.
  unfold sql_delete. induction queue as [|q queue IH]; cbn; [constructor|].
  destruct (cond q); cbn; by constructor.
Qed.

Lemma process_item_frame (resp : BatchSyncResponse) (item : SyncQueueItem) (st : SyncState) :
  pass_frame (world st)
    (world (process_item Date_now CURRENT_TIMESTAMP JSON_parse Date_getTime resp item st).2).
Proof.
  unfold process_item. repeat case_match; cbn [snd world]; try apply pass_frame_refl.
  - split.
    + unfold remove_item. cbn [sync_queue with_queue].
      rewrite updateSyncStatus_queue. apply content_sql_delete.
    + rewrite remove_item_tasks. apply updateSyncStatus_ids.
  - split.
    + unfold remove_item. cbn [sync_queue with_queue].
      rewrite updateSyncStatus_queue, updateTask_queue. apply content_sql_delete.
    + rewrite remove_item_tasks, updateSyncStatus_ids. apply updateTask_ids.
  - unfold item_error. cbn [world].
    destruct (handleSyncError_frame item
                (default "Unknown error" (truthy_string (find_response resp item ≫= r_error)))
                (world st)) as [H1 H2].
    split; [by rewrite H1 | exact H2].
Qed.

Lemma process_items_frame (resp : BatchSyncResponse) (batch : list SyncQueueItem)
    (st : SyncState) :
  pass_frame (world st)
    (world (process_items Date_now CURRENT_TIMESTAMP JSON_parse Date_getTime resp batch st).2).
Proof.
  revert st. induction batch as [|item batch IH]; intros st; cbn [process_items];
    [apply pass_frame_refl|].
  pose proof (process_item_frame resp item st) as Hitem.
  destruct (process_item _ _ _ _ resp item st) as [[m|] st1]; cbn [snd] in *;
    [exact Hitem|].
  eapply pass_frame_trans; [exact Hitem | apply IH].
Qed.

Lemma fail_batch_frame (message : string) (batch : list SyncQueueItem) (st : SyncState) :
  item_content <$> sync_queue (world (fail_batch CURRENT_TIMESTAMP message batch st))
  = item_content <$> sync_queue (world st) /\
  t_id <$> tasks (world (fail_batch CURRENT_TIMESTAMP message batch st))
  = t_id <$> tasks (world st).
Proof.
  rewrite fail_batch_world. generalize (world st) as w.
  induction batch as [|item batch IH]; intros w; cbn [foldl]; [done|].
  destruct (IH (handleSyncError CURRENT_TIMESTAMP item message w)) as [H1 H2].
  destruct (handleSyncError_frame item message w) as [H3 H4].
  split; congruence.
Qed.

Lemma process_batch_frame
    (processBatch : nat -> list SyncQueueItem -> string + BatchSyncResponse)
    (st : SyncState) (batch : list SyncQueueItem) :
  pass_frame (world st)
    (world (process_batch Date_now CURRENT_TIMESTAMP JSON_parse Date_getTime
              processBatch st batch)).
Proof.
  unfold process_batch. destruct (processBatch _ _) as [m | resp].
  - destruct (fail_batch_frame m batch (mkState (bump (world st)) (result st))) as [H1 H2].
    split; [by rewrite H1 | by rewrite H2].
  - pose proof (process_items_frame resp batch (mkState (bump (world st)) (result st)))
      as Hitems.
    destruct (process_items _ _ _ _ resp batch _) as [[m|] st2]; cbn [snd world] in *;
      [|exact Hitems].
    destruct (fail_batch_frame m batch st2) as [H1 H2].
    destruct Hitems as [H3 H4]. cbn [world tasks sync_queue bump] in H3, H4.
    split; [by rewrite H1 | congruence].
Qed.

Lemma process_batches_frame
    (processBatch : nat -> list SyncQueueItem -> string + BatchSyncResponse)
    (batches : list (list SyncQueueItem)) (st : SyncState) :
  pass_frame (world st)
    (world (foldl (process_batch Date_now CURRENT_TIMESTAMP JSON_parse Date_getTime
                     processBatch) st batches)).
Proof.
  revert st. induction batches as [|b batches IH]; intros st; cbn [foldl];
    [apply pass_frame_refl|].
  eapply pass_frame_trans; [apply process_batch_frame | apply IH].
Qed.

End PassFrame.

(** A pass that returns has only dropped items from the queue: the
    items left are items that were there, in the same order, with the same
    identifier, task, operation, payload and enqueue time; none was added;
    and the task table has the same rows, by identifier, as before. *)
Theorem pass_only_drops_items
    (Date_now CURRENT_TIMESTAMP : nat -> string)
    (JSON_parse : string -> string + Task) (Date_getTime : string -> option Z)
    (processBatch : nat -> list SyncQueueItem -> string + BatchSyncResponse)
    (SYNC_BATCH_SIZE : nat) (w w' : World) (r : SyncResult) :
  sync Date_now CURRENT_TIMESTAMP JSON_parse Date_getTime processBatch SYNC_BATCH_SIZE w
  = Some (r, w') ->
  item_content <$> sync_queue w' `sublist_of` item_content <$> sync_queue w /\
  (length (sync_queue w') <= length (sync_queue w))%nat /\
  t_id <$> tasks w' = t_id <$> tasks w.
Proof.
  intros Hsync.
  assert (pass_frame w w') as [Hq Ht].
  { unfold sync in Hsync.
    destruct (length (drain w) =? 0)%nat; [injection Hsync as _ <-; apply pass_frame_refl|].
    destruct (make_batches SYNC_BATCH_SIZE (drain w)) as [batches|]; [|discriminate].
    cbn in Hsync. injection Hsync as _ <-.
    apply (process_batches_frame Date_now CURRENT_TIMESTAMP JSON_parse Date_getTime
             processBatch batches (mkState w (mkResult 0 0 0 (length (drain w))))). }
  split; [exact Hq|]. split; [|exact Ht].
  apply sublist_length in Hq. by rewrite !length_fmap in Hq.
Qed.

(** ** The transmitter as shipped, and the stub variant *)

Section Shipped.

Variable Date_now : nat -> string.
Variable CURRENT_TIMESTAMP : nat -> string.
Variable JSON_parse : string -> string + Task.
Variable Date_getTime : string -> option Z.

Lemma process_items_source (response_for batch : list SyncQueueItem) (st : SyncState) :
  process_items Date_now CURRENT_TIMESTAMP JSON_parse Date_getTime
    (processBatch_source response_for) batch st
  = (None, fail_batch CURRENT_TIMESTAMP "Unknown error" batch st).
Proof.
  revert st. induction batch as [|item batch IH]; intros st; [reflexivity|].
  cbn [process_items]. unfold process_item at 1.
  rewrite find_response_source. cbn [mbind option_bind truthy default truthy_string].
  rewrite IH. reflexivity.
Qed.

Lemma process_batch_source (st : SyncState) (batch : list SyncQueueItem) :
  process_batch Date_now CURRENT_TIMESTAMP JSON_parse Date_getTime
    (fun _ items => inr (processBatch_source items)) st batch
  = fail_batch CURRENT_TIMESTAMP "Unknown error" batch (mkState (bump (world st)) (result st)).
Proof. unfold process_batch. by rewrite process_items_source. Qed.

Lemma process_batches_source (batches : list (list SyncQueueItem)) (st : SyncState) :
  let st' :=
    foldl (process_batch Date_now CURRENT_TIMESTAMP JSON_parse Date_getTime
             (fun _ items => inr (processBatch_source items))) st batches in
  st' = foldl (process_batch Date_now CURRENT_TIMESTAMP JSON_parse Date_getTime
                 (fun _ _ => inl "Unknown error")) st batches /\
  result st'
  = mkResult (success (result st)) (failed (result st) + length (concat batches))
      (conflicts (result st)) (total (result st)) /\
  item_content <$> sync_queue (world st') = item_content <$> sync_queue (world st) /\
  t_id <$> tasks (world st') = t_id <$> tasks (world st).
Proof.
  cbn zeta. revert st. induction batches as [|b batches IH]; intros st; cbn [foldl concat].
  - cbn. rewrite Nat.add_0_r. by destruct (result st).
  - destruct (IH (process_batch Date_now CURRENT_TIMESTAMP JSON_parse Date_getTime
                    (fun _ items => inr (processBatch_source items)) st b))
      as (Heq & Hres & Hcontent & Hids).
    rewrite Hres, Hcontent, Hids. rewrite Heq at 1.
    rewrite !process_batch_source.
    destruct (fail_batch_frame CURRENT_TIMESTAMP "Unknown error" b
                (mkState (bump (world st)) (result st))) as [H1 H2].
    rewrite H1, H2, fail_batch_result, length_app. cbn.
    split; [reflexivity|]. split; [f_equal; lia | done].
Qed.

End Shipped.

(** With the transmitter that the source ships, and a positive batch
    size, a pass fails every item with "Unknown error": the result counts
    no success and no conflict and as many failures as there are items, no
    item leaves the queue, and the pass is the same as one whose every
    exchange throws "Unknown error". *)
Theorem shipped_transmitter_fails_every_item
    (Date_now CURRENT_TIMESTAMP : nat -> string)
    (JSON_parse : string -> string + Task) (Date_getTime : string -> option Z)
    (SYNC_BATCH_SIZE : nat) (w : World) :
  (0 < SYNC_BATCH_SIZE)%nat ->
  let shipped (_ : nat) (items : list SyncQueueItem) : string + BatchSyncResponse :=
    inr (processBatch_source items) in
  let unreachable (_ : nat) (_ : list SyncQueueItem) : string + BatchSyncResponse :=
    inl "Unknown error" in
  exists w',
    sync Date_now CURRENT_TIMESTAMP JSON_parse Date_getTime shipped SYNC_BATCH_SIZE w
    = Some (mkResult 0 (length (sync_queue w)) 0 (length (sync_queue w)), w') /\
    item_content <$> sync_queue w' = item_content <$> sync_queue w /\
    t_id <$> tasks w' = t_id <$> tasks w /\
    sync Date_now CURRENT_TIMESTAMP JSON_parse Date_getTime shipped SYNC_BATCH_SIZE w
    = sync Date_now CURRENT_TIMESTAMP JSON_parse Date_getTime unreachable SYNC_BATCH_SIZE w.
Proof.
  intros Hpos shipped unreachable. subst shipped unreachable.
  destruct (decide (sync_queue w = [])) as [Hq | Hq].
  - exists w. rewrite !sync_empty by exact Hq. rewrite Hq. done.
  - destruct (make_batches_spec SYNC_BATCH_SIZE Hpos (drain w))
      as (batches & Hb & Hcat & _).
    rewrite !(sync_unfold _ _ _ _ _ _ _ batches Hb) by exact Hq.
    cbn zeta.
    destruct (process_batches_source Date_now CURRENT_TIMESTAMP JSON_parse Date_getTime
                batches (mkState w (mkResult 0 0 0 (length (drain w)))))
      as (Heq & Hres & Hcontent & Hids).
    cbn zeta in Heq, Hres, Hcontent, Hids. cbn [world result] in Hres, Hcontent, Hids.
    eexists. split; [|split; [exact Hcontent | split; [exact Hids|]]].
    + rewrite Hres. cbn. rewrite Hcat, drain_length. reflexivity.
    + by rewrite Heq.
Qed.

Section StubPass.

Variable axios_post : nat -> bool.

Lemma stub_loop_failure (items : list SyncQueueItem) (s f : nat) (w : World) :
  foldl (fun '(synced_count, failed_count, w1) (item : SyncQueueItem) =>
           if true then (synced_count, S failed_count, w1)
           else (S synced_count, failed_count, remove_item item w1))
    (s, f, w) items
  = (s, (f + length items)%nat, w).
Proof.
  revert f. induction items as [|item items IH]; intros f; cbn [foldl length].
  - by rewrite Nat.add_0_r.
  - rewrite IH. do 2 f_equal. lia.
Qed.

Lemma stub_loop_success (items : list SyncQueueItem) (s f : nat) (w : World) :
  foldl (fun '(synced_count, failed_count, w1) (item : SyncQueueItem) =>
           if false then (synced_count, S failed_count, w1)
           else (S synced_count, failed_count, remove_item item w1))
    (s, f, w) items
  = ((s + length items)%nat, f, foldl (fun w1 item => remove_item item w1) w items).
Proof.
  revert s w. induction items as [|item items IH]; intros s w; cbn [foldl length].
  - by rewrite Nat.add_0_r.
  - rewrite IH. do 2 f_equal. lia.
Qed.

Lemma remove_all_spec (items : list SyncQueueItem) (w : World) (q : SyncQueueItem) :
  q ∈ sync_queue (foldl (fun w1 item => remove_item item w1) w items) <->
  q ∈ sync_queue w /\ q_id q ∉ q_id <$> items.
Proof.
  revert w. induction items as [|item items IH]; intros w; cbn [foldl].
  - split; [intros H; split; [exact H | apply not_elem_of_nil] | by intros [H _]].
  - rewrite IH, remove_item_queue. cbn [fmap list_fmap]. rewrite not_elem_of_cons. tauto.
Qed.

Lemma remove_all_tasks (items : list SyncQueueItem) (w : World) :
  tasks (foldl (fun w1 item => remove_item item w1) w items) = tasks w.
Proof.
  revert w. induction items as [|item items IH]; intros w; cbn [foldl]; [reflexivity|].
  by rewrite IH.
Qed.

End StubPass.

(** The stub variant of [sync] is all or nothing: when the request
    resolves, every item is deleted from the queue and counted as synced;
    when it rejects, the queue is left as it is and every item is counted
    as failed.  The task table is never touched. *)
Theorem sync_stub_all_or_nothing (axios_post : nat -> bool) (w : World) :
  let resolved := axios_post (tick w) in
  let n := length (sync_queue w) in
  (sync_stub axios_post w).1
  = (if resolved then mkStubResult true n 0 else mkStubResult false 0 n) /\
  sync_queue (sync_stub axios_post w).2 = (if resolved then [] else sync_queue w) /\
  tasks (sync_stub axios_post w).2 = tasks w.
Proof.
  cbn zeta. unfold sync_stub. destruct (axios_post (tick w)); cbn [negb].
  - rewrite stub_loop_success. cbn [fst snd]. rewrite drain_length, remove_all_tasks.
    split; [reflexivity|]. split; [|reflexivity].
    apply elem_of_nil_inv. intros q Hq. apply remove_all_spec in Hq as [Hin Hid].
    apply Hid. apply list_elem_of_fmap_2. by rewrite drain_permutation.
  - rewrite stub_loop_failure. cbn [fst snd]. by rewrite drain_length.
Qed.

(** ** The routes *)

Section TaskRoutesFacts.

Variable uuidv4 : nat -> string.
Variable Date_now : nat -> string.
Variable CURRENT_TIMESTAMP : nat -> string.
Variable JSON_stringify : PartialTask -> string.

Local Abbreviation enqueue := (addToSyncQueue uuidv4 CURRENT_TIMESTAMP JSON_stringify).

Lemma enqueue_tasks (taskId : string) (operation : Operation) (data : PartialTask)
    (w : World) :
  tasks (enqueue taskId operation data w) = tasks w.
Proof.
  unfold addToSyncQueue. by destruct (0 <? length _)%nat.
Qed.

Lemma getTask_enqueue (i taskId : string) (operation : Operation) (data : PartialTask)
    (w : World) :
  getTask i (enqueue taskId operation data w) = getTask i w.
Proof. by rewrite !getTask_select, enqueue_tasks. Qed.

(** What the queue holds for a pair right after the pair is queued. *)
Lemma enqueue_queued (taskId : string) (operation : Operation) (data : PartialTask)
    (w : World) :
  let items := sql_select (same_pair taskId operation)
                 (sync_queue (enqueue taskId operation data w)) in
  items <> [] /\
  Forall (fun q => q_data q = JSON_stringify data /\ q_retry_count q = 0%Z) items.
Proof.
  destruct (enqueue_select uuidv4 CURRENT_TIMESTAMP JSON_stringify taskId operation data w)
    as (H1 & H2 & _). by split.
Qed.

End TaskRoutesFacts.

(** [POST /] with a title that is missing, empty or not a string answers
    400 and changes nothing, whatever the description. *)
Theorem post_task_rejects_bad_title
    (uuidv4 Date_now CURRENT_TIMESTAMP : nat -> string)
    (JSON_stringify : PartialTask -> string)
    (title description : JsValue) (w : World) :
  (forall c rest, title <> JsString (String c rest)) ->
  post_task uuidv4 Date_now CURRENT_TIMESTAMP JSON_stringify title description w
  = Some (mkResponseOf 400 (ErrorBody "Title is required and must be a string"), w).
Proof.
  intros Hbad. unfold post_task.
  destruct title as [|[|c rest]| |]; try reflexivity. by exfalso; eapply Hbad.
Qed.

(** [POST /] with a non-empty title, and a description that is a string
    or missing, answers 201 with the new task: it carries the title and
    the description (empty when missing), it is pending, its row is
    appended to the table, and the queue holds its creation with the
    serialized task as payload and no retry.  When the fresh identifier
    is not yet in the table, the task is what [getTask] then returns. *)
Theorem post_task_creates_and_queues
    (uuidv4 Date_now CURRENT_TIMESTAMP : nat -> string)
    (JSON_stringify : PartialTask -> string)
    (c : Ascii.ascii) (rest : string) (described : JsValue) (w : World) :
  defined_non_string described = false ->
  exists task w',
    post_task uuidv4 Date_now CURRENT_TIMESTAMP JSON_stringify
      (JsString (String c rest)) described w
    = Some (mkResponseOf 201 (TaskBody task), w') /\
    title task = String c rest /\
    description task = default EmptyString (string_property described) /\
    sync_status task = "pending" /\
    tasks w' = tasks w ++ [row_of_task task] /\
    sql_select (same_pair (id task) create) (sync_queue w') <> [] /\
    Forall (fun q => q_data q = JSON_stringify (partial_of_task task) /\
                     q_retry_count q = 0%Z)
      (sql_select (same_pair (id task) create) (sync_queue w')) /\
    (uuidv4 (tick w) ∉ t_id <$> tasks w -> getTask (id task) w' = Some task).
Proof.
  intros Hd. unfold post_task.
  set (taskData := mkPartial None (Some (String c rest)) (string_property described)
                     None None None None None None None).
  assert (match described with
          | JsBoolean _ | JsOther => None
          | _ =>
              let '(newTask, w1) := createTask uuidv4 Date_now taskData w in
              Some (mkResponseOf 201 (TaskBody newTask),
                    addToSyncQueue uuidv4 CURRENT_TIMESTAMP JSON_stringify
                      (id newTask) create (partial_of_task newTask) w1)
          end
          = Some (mkResponseOf 201 (TaskBody (createTask uuidv4 Date_now taskData w).1),
                  addToSyncQueue uuidv4 CURRENT_TIMESTAMP JSON_stringify
                    (id (createTask uuidv4 Date_now taskData w).1) create
                    (partial_of_task (createTask uuidv4 Date_now taskData w).1)
                    (createTask uuidv4 Date_now taskData w).2)) as Heq.
  { destruct described; try discriminate; reflexivity. }
  eexists _, _. split; [exact Heq|].
  set (task := (createTask uuidv4 Date_now taskData w).1).
  set (w1 := (createTask uuidv4 Date_now taskData w).2).
  destruct (enqueue_queued uuidv4 CURRENT_TIMESTAMP JSON_stringify (id task) create
              (partial_of_task task) w1) as [Hne Hall].
  split; [reflexivity|]. split; [reflexivity|]. split; [reflexivity|].
  split; [by rewrite enqueue_tasks|]. split; [exact Hne|]. split; [exact Hall|].
  intros Hfresh. rewrite getTask_enqueue.
  by destruct (createTask_read uuidv4 Date_now taskData w Hfresh) as (H & _).
Qed.

(** [PUT /:id] with a field of the wrong type answers 400, and with
    well-typed fields for a task that [getTask] does not find answers 404;
    either way nothing is changed and nothing is queued. *)
Theorem put_task_rejects_without_writing
    (uuidv4 Date_now CURRENT_TIMESTAMP : nat -> string)
    (JSON_stringify : PartialTask -> string)
    (i : string) (title_field description_field completed_field : JsValue) (w : World) :
  defined_non_string title_field = true \/
  defined_non_string description_field = true \/
  defined_non_boolean completed_field = true \/
  getTask i w = None ->
  let out := put_task uuidv4 Date_now CURRENT_TIMESTAMP JSON_stringify i
               title_field description_field completed_field w in
  out.2 = w /\
  status_code out.1
  = (if defined_non_string title_field || defined_non_string description_field
        || defined_non_boolean completed_field
     then 400 else 404)%nat.
Proof.
  intros H. cbn zeta. unfold put_task.
  destruct (defined_non_string title_field); [done|].
  destruct (defined_non_string description_field); [done|].
  destruct (defined_non_boolean completed_field); [done|].
  destruct H as [H | [H | [H | H]]]; try discriminate.
  unfold updateTask. rewrite H. done.
Qed.

(** [PUT /:id] with well-typed fields for a task that [getTask] finds
    answers 200 with the task as updated: the fields sent replace the old
    ones, the status is back to [pending]; the task reads so afterwards;
    and the queue holds its update with the serialized updated task as
    payload and no retry. *)
Theorem put_task_updates_and_queues
    (uuidv4 Date_now CURRENT_TIMESTAMP : nat -> string)
    (JSON_stringify : PartialTask -> string)
    (i : string) (title_field description_field completed_field : JsValue) (w : World)
    (old : Task) :
  defined_non_string title_field = false ->
  defined_non_string description_field = false ->
  defined_non_boolean completed_field = false ->
  getTask i w = Some old ->
  let new :=
    {| id := i;
       title := default (title old) (string_property title_field);
       description := default (description old) (string_property description_field);
       completed := default (completed old) (boolean_property completed_field);
       is_deleted := false;
       sync_status := "pending";
       created_at := created_at old;
       updated_at := Date_now (tick w);
       last_synced_at := last_synced_at old;
       server_id := server_id old |} in
  let out := put_task uuidv4 Date_now CURRENT_TIMESTAMP JSON_stringify i
               title_field description_field completed_field w in
  out.1 = mkResponseOf 200 (TaskBody new) /\
  getTask i out.2 = Some new /\
  sql_select (same_pair i update) (sync_queue out.2) <> [] /\
  Forall (fun q => q_data q = JSON_stringify (partial_of_task new) /\ q_retry_count q = 0%Z)
    (sql_select (same_pair i update) (sync_queue out.2)).
Proof.
  intros Ht Hd Hc Hold. cbn zeta. unfold put_task. rewrite Ht, Hd, Hc.
  set (updates := mkPartial None _ _ _ None None None None None None).
  destruct (updateTask_live Date_now i updates w old Hold) as (Hres & Hget & _).
  cbn zeta in Hres, Hget.
  destruct (updateTask Date_now i updates w) as [res w1]. cbn [fst snd] in Hres, Hget.
  subst res. cbn [fst snd id].
  split; [reflexivity|]. split; [by rewrite getTask_enqueue|].
  apply enqueue_queued.
Qed.

(** [DELETE /:id] for a task that [getTask] finds answers 200; the task
    is then hidden from [getTask], the queue holds its deletion with the
    serialized empty object as payload and no retry, and a second
    [DELETE] for it answers 404 and changes nothing. *)
Theorem delete_task_hides_and_queues
    (uuidv4 Date_now CURRENT_TIMESTAMP : nat -> string)
    (JSON_stringify : PartialTask -> string)
    (i : string) (w : World) (old : Task) :
  getTask i w = Some old ->
  let out := delete_task uuidv4 Date_now CURRENT_TIMESTAMP JSON_stringify i w in
  out.1 = mkResponseOf 200 SuccessBody /\
  getTask i out.2 = None /\
  sql_select (same_pair i delete) (sync_queue out.2) <> [] /\
  Forall (fun q => q_data q = JSON_stringify empty_partial /\ q_retry_count q = 0%Z)
    (sql_select (same_pair i delete) (sync_queue out.2)) /\
  delete_task uuidv4 Date_now CURRENT_TIMESTAMP JSON_stringify i out.2
  = (mkResponseOf 404 (ErrorBody "Task not found"), out.2).
Proof.
  intros Hold. cbn zeta.
  destruct (deleteTask Date_now i w) as [[|] w1] eqn:Hdel;
    [|unfold deleteTask in Hdel; rewrite Hold in Hdel; discriminate].
  assert (delete_task uuidv4 Date_now CURRENT_TIMESTAMP JSON_stringify i w
          = (mkResponseOf 200 SuccessBody,
             addToSyncQueue uuidv4 CURRENT_TIMESTAMP JSON_stringify i delete
               empty_partial w1)) as ->
      by (unfold delete_task; by rewrite Hdel).
  cbn [fst snd].
  assert (getTask i (addToSyncQueue uuidv4 CURRENT_TIMESTAMP JSON_stringify i delete
                       empty_partial w1) = None) as Hgone.
  { rewrite getTask_enqueue. apply getTask_none_of_no_live.
    by eapply deleteTask_true_inv. }
  split; [reflexivity|]. split; [exact Hgone|].
  destruct (enqueue_queued uuidv4 CURRENT_TIMESTAMP JSON_stringify i delete
              empty_partial w1) as [Hne Hall].
  split; [exact Hne|]. split; [exact Hall|].
  unfold delete_task, deleteTask. by rewrite Hgone.
Qed.

(** [POST /sync] is gated by the probe: when the health request fails
    the answer is 503 and neither table is touched, whatever is queued;
    when it succeeds, and the batch size is positive, the answer is 200
    with the result of a pass, whose total is the length of the queue. *)
Theorem post_sync_is_gated
    (Date_now CURRENT_TIMESTAMP : nat -> string)
    (JSON_parse : string -> string + Task) (Date_getTime : string -> option Z)
    (processBatch : nat -> list SyncQueueItem -> string + BatchSyncResponse)
    (SYNC_BATCH_SIZE : nat) (axios_get : nat -> bool) (w : World) :
  (0 < SYNC_BATCH_SIZE)%nat ->
  exists response w',
    post_sync Date_now CURRENT_TIMESTAMP JSON_parse Date_getTime processBatch
      SYNC_BATCH_SIZE axios_get w = Some (response, w') /\
    (if axios_get (tick w)
     then exists r, response = mkResponseOf 200 (SyncBody r) /\
                    total r = length (sync_queue w) /\
                    sync Date_now CURRENT_TIMESTAMP JSON_parse Date_getTime processBatch
                      SYNC_BATCH_SIZE (bump w) = Some (r, w')
     else response = mkResponseOf 503 (ErrorBody "Server is unreachable for sync") /\
          tasks w' = tasks w /\ sync_queue w' = sync_queue w).
Proof.
  intros Hpos. unfold post_sync, checkConnectivity.
  destruct (axios_get (tick w)).
  - destruct (decide (sync_queue w = [])) as [Hq | Hq].
    + rewrite sync_empty by exact Hq. cbn. eexists _, _. split; [reflexivity|].
      eexists. split; [reflexivity|]. split; [by rewrite Hq | reflexivity].
    + destruct (make_batches_spec SYNC_BATCH_SIZE Hpos (drain (bump w)))
        as (batches & Hb & _).
      rewrite (sync_unfold _ _ _ _ _ _ _ batches Hb) by exact Hq.
      cbn. eexists _, _. split; [reflexivity|].
      eexists. split; [reflexivity|]. split; [|reflexivity].
      rewrite process_batches_total. cbn.
      change (drain (bump w)) with (drain w). apply drain_length.
  - eexists _, _. split; [reflexivity|]. done.
Qed.

Lemma truthy_string_some (o : option string) (s : string) :
  truthy_string o = Some s -> o = Some s.
Proof. destruct o as [[|c rest]|]; cbn; congruence. Qed.

(** The last element of the sorted list is one of the strings and is
    above all of them. *)
Lemma greatest_string (l : list string) :
  match head (reverse (sort_strings l)) with
  | None => l = []
  | Some m => m ∈ l /\ forall s, s ∈ l -> String.le s m
  end.
Proof.
  unfold sort_strings.
  pose proof (Sorted_reverse _ _ (Sorted_merge_sort String.le l)) as Hsorted.
  apply Sorted_StronglySorted in Hsorted;
    [|intros a b c H1 H2; unfold flip in *; etrans; [exact H2 | exact H1]].
  assert (reverse (merge_sort String.le l) ≡ₚ l) as Hperm
      by (by rewrite reverse_Permutation, merge_sort_Permutation).
  destruct (reverse (merge_sort String.le l)) as [|m rest]; cbn [head].
  - by apply Permutation_nil_l in Hperm.
  - split; [rewrite <- Hperm; left|].
    intros s Hs. rewrite <- Hperm in Hs. apply elem_of_cons in Hs as [-> | Hs]; [done|].
    apply StronglySorted_inv in Hsorted as [_ Hall].
    rewrite Forall_forall in Hall. by apply Hall.
Qed.

(** [GET /status] answers 200 with the number of tasks that need a sync,
    the answer of the probe, and as last sync time the greatest
    last-synced time among the tasks that are not deleted, or [null] when
    none of them has one; it writes to neither table. *)
Theorem get_status_reports_latest_sync (axios_get : nat -> bool) (w : World) :
  let out := get_status axios_get w in
  exists last,
    out.1 = mkResponseOf 200
              (StatusBody (length (getTasksNeedingSync w)) last (axios_get (tick w))) /\
    tasks out.2 = tasks w /\
    sync_queue out.2 = sync_queue w /\
    match last with
    | None => forall t, t ∈ getAllTasks w -> truthy_string (last_synced_at t) = None
    | Some m =>
        (exists t, t ∈ getAllTasks w /\ last_synced_at t = Some m) /\
        (forall t s, t ∈ getAllTasks w -> truthy_string (last_synced_at t) = Some s ->
                     String.le s m)
    end.
Proof.
  cbn zeta. unfold get_status, checkConnectivity. cbn [fst snd tasks sync_queue bump].
  eexists. split; [reflexivity|]. split; [reflexivity|]. split; [reflexivity|].
  pose proof (greatest_string
                (omap (fun t => truthy_string (last_synced_at t)) (getAllTasks w))) as H.
  destruct (head _) as [m|].
  - destruct H as [Hin Hmax]. apply list_elem_of_omap in Hin as (t & Ht & Hm). split.
    + exists t. split; [exact Ht | by apply truthy_string_some].
    + intros t' s Ht' Hs. apply Hmax. apply list_elem_of_omap. eauto.
  - intros t Ht. destruct (truthy_string (last_synced_at t)) as [s|] eqn:Hs; [|reflexivity].
    assert (s ∈ omap (fun t => truthy_string (last_synced_at t)) (getAllTasks w)) as Hin
        by (apply list_elem_of_omap; eauto).
    rewrite H in Hin. by apply elem_of_nil in Hin.
Qed.

(** ** The further properties at the examples *)

Lemma createTask_then_read_witness :
  let task := (createTask Sample.uuidv4 Sample.Date_now (Examples.titled "A")
                 Examples.empty_world).1 in
  let w' := (createTask Sample.uuidv4 Sample.Date_now (Examples.titled "A")
               Examples.empty_world).2 in
  getTask (id task) w' = Some task /\
  task ∈ getAllTasks w' /\
  task ∈ getTasksNeedingSync w' /\
  (forall i, i <> id task -> getTask i w' = getTask i Examples.empty_world).
Proof.
  apply (createTask_then_read Sample.uuidv4 Sample.Date_now (Examples.titled "A")
           Examples.empty_world).
  cbn. apply not_elem_of_nil.
Defined.

Lemma updateTask_replaces_supplied_fields_witness :
  let new :=
    {| id := Examples.T1;
       title := "B";
       description := description Examples.task1;
       completed := completed Examples.task1;
       is_deleted := false;
       sync_status := "pending";
       created_at := created_at Examples.task1;
       updated_at := Sample.Date_now 2;
       last_synced_at := last_synced_at Examples.task1;
       server_id := server_id Examples.task1 |} in
  let w' := (updateTask Sample.Date_now Examples.T1 (Examples.titled "B")
               Examples.one_task).2 in
  (updateTask Sample.Date_now Examples.T1 (Examples.titled "B") Examples.one_task).1
  = Some new /\
  getTask Examples.T1 w' = Some new /\
  t_id <$> tasks w' = t_id <$> tasks Examples.one_task /\
  (forall r, t_id r <> Examples.T1 -> r ∈ tasks w' <-> r ∈ tasks Examples.one_task) /\
  sync_queue w' = sync_queue Examples.one_task.
Proof.
  apply (updateTask_replaces_supplied_fields Sample.Date_now Examples.T1
           (Examples.titled "B") Examples.one_task Examples.task1).
  vm_compute. reflexivity.
Defined.

Lemma deleteTask_keeps_the_data_witness :
  let w' := (deleteTask Sample.Date_now Examples.T1 Examples.one_task).2 in
  (deleteTask Sample.Date_now Examples.T1 Examples.one_task).1 = true /\
  task_data <$> tasks w' = task_data <$> tasks Examples.one_task /\
  sync_marks <$> tasks w' = sync_marks <$> tasks Examples.one_task /\
  (forall r, r ∈ tasks w' -> t_id r = Examples.T1 ->
     t_is_deleted r = 1%Z /\ t_sync_status r = "pending" /\
     t_updated_at r = Sample.Date_now (tick Examples.one_task)) /\
  (forall r, t_id r <> Examples.T1 -> r ∈ tasks w' <-> r ∈ tasks Examples.one_task) /\
  sync_queue w' = sync_queue Examples.one_task.
Proof.
  apply (deleteTask_keeps_the_data Sample.Date_now Examples.T1 Examples.one_task
           Examples.task1).
  vm_compute. reflexivity.
Defined.

Lemma requeue_keeps_identity_and_status_witness :
  let w := Examples.after_passes Examples.network_down 3 Examples.queued in
  let w' := Examples.enqueue Examples.T1 create (Examples.titled "A again") w in
  item_identity <$> sync_queue w' = item_identity <$> sync_queue w /\
  q_status <$> sync_queue w' = q_status <$> sync_queue w /\
  q_error_message <$> sync_queue w' = q_error_message <$> sync_queue w /\
  item_identity <$> drain w' = item_identity <$> drain w /\
  Forall (fun q => q_data q = Sample.JSON_stringify (Examples.titled "A again") /\
                   q_retry_count q = 0%Z)
    (sql_select (same_pair Examples.T1 create) (sync_queue w')).
Proof.
  apply (requeue_keeps_identity_and_status Sample.uuidv4 Sample.CURRENT_TIMESTAMP
           Sample.JSON_stringify Examples.T1 create (Examples.titled "A again")
           (Examples.after_passes Examples.network_down 3 Examples.queued)).
  vm_compute. discriminate.
Defined.

(** A change that failed for good and is queued again is drained with a
    retry count of zero and still carries the status [failed]. *)
Example requeued_failed_item :
  let w := Examples.after_passes Examples.network_down 3 Examples.queued in
  (fun q => (q_retry_count q, q_status q))
    <$> sync_queue (Examples.enqueue Examples.T1 create (Examples.titled "A again") w)
  = [(0%Z, Some "failed")].
Proof. vm_compute. reflexivity. Qed.

Lemma failure_below_ceiling_keeps_task_witness :
  let w' := handleSyncError Sample.CURRENT_TIMESTAMP Examples.create_item "Network Error"
              Examples.queued in
  tasks w' = tasks Examples.queued /\
  q_status <$> sync_queue w' = q_status <$> sync_queue Examples.queued /\
  length (sync_queue w') = length (sync_queue Examples.queued) /\
  (forall q, q ∈ sync_queue w' -> q_id q = q_id Examples.create_item ->
             q_retry_count q = (q_retry_count Examples.create_item + 1)%Z /\
             (q_retry_count q < MAX_RETRIES)%Z /\
             q_error_message q = Some "Network Error").
Proof.
  apply (failure_below_ceiling_keeps_task Sample.CURRENT_TIMESTAMP Examples.create_item
           "Network Error" Examples.queued).
  vm_compute. reflexivity.
Defined.

Lemma failure_at_ceiling_marks_item_and_task_witness :
  let w := Examples.after_passes Examples.network_down 2 Examples.queued in
  let w' := handleSyncError Sample.CURRENT_TIMESTAMP Examples.twice_failed_item
              "Network Error" w in
  (forall q, q ∈ sync_queue w' -> q_id q = q_id Examples.twice_failed_item ->
             q_status q = Some "failed" /\
             q_retry_count q = (q_retry_count Examples.twice_failed_item + 1)%Z /\
             q_error_message q = Some "Network Error") /\
  (forall r, r ∈ tasks w' -> t_id r = q_task_id Examples.twice_failed_item ->
             t_sync_status r = "error") /\
  (forall r, t_id r <> q_task_id Examples.twice_failed_item ->
             r ∈ tasks w' <-> r ∈ tasks w) /\
  q_id <$> sync_queue w' = q_id <$> sync_queue w /\
  task_data <$> tasks w' = task_data <$> tasks w.
Proof.
  apply (failure_at_ceiling_marks_item_and_task Sample.CURRENT_TIMESTAMP
           Examples.twice_failed_item "Network Error"
           (Examples.after_passes Examples.network_down 2 Examples.queued)).
  vm_compute. discriminate.
Defined.

Example twice_failed_item_is_drained :
  drain (Examples.after_passes Examples.network_down 2 Examples.queued)
  = [Examples.twice_failed_item].
Proof. vm_compute. reflexivity. Qed.

Lemma conflict_entry_persists_winner_witness :
  let resp := {| results := [Examples.conflict_entry] |} in
  let st := mkState (bump Examples.queued) (mkResult 0 0 0 1) in
  let winner := Examples.server_version "2024-01-01T00:00:01.001Z" in
  let out := process_item Sample.Date_now Sample.CURRENT_TIMESTAMP
               (Sample.JSON_parse [Examples.task1]) Sample.Date_getTime
               resp Examples.create_item st in
  (out.1 = None /\
   result out.2 = mkResult 0 0 1 1 /\
   (forall q, q ∈ sync_queue (world out.2) <->
              q ∈ sync_queue (world st) /\ q_id q <> q_id Examples.create_item) /\
   t_id <$> tasks (world out.2) = t_id <$> tasks (world st)) /\
  (exists t, getTask Examples.T1 (world out.2) = Some t /\
             title t = title winner /\ description t = description winner /\
             completed t = completed winner /\ sync_status t = "synced" /\
             created_at t = created_at Examples.task1).
Proof.
  destruct (conflict_entry_persists_winner Sample.Date_now Sample.CURRENT_TIMESTAMP
              (Sample.JSON_parse [Examples.task1]) Sample.Date_getTime
              {| results := [Examples.conflict_entry] |} Examples.create_item
              (mkState (bump Examples.queued) (mkResult 0 0 0 1))
              Examples.conflict_entry Examples.task1
              (Examples.server_version "2024-01-01T00:00:01.001Z")
              1704067201000 1704067201001)
    as (H1 & H2 & H3 & H4 & _ & H6); try (vm_compute; reflexivity).
  split; [split; [exact H1 | split; [exact H2 | split; [exact H3 | exact H4]]]|].
  refine (H6 _ Examples.task1 _); vm_compute; reflexivity.
Defined.

Lemma exception_in_batch_fails_whole_batch_witness :
  let batch := [Examples.good_item; Examples.broken_item] in
  let st := mkState Examples.two_queued (mkResult 0 0 0 2) in
  let st2 := (process_items Sample.Date_now Sample.CURRENT_TIMESTAMP
                (Sample.JSON_parse [Examples.task1]) Sample.Date_getTime
                Examples.mixed_response batch
                (mkState (bump Examples.two_queued) (mkResult 0 0 0 2))).2 in
  let st' := process_batch Sample.Date_now Sample.CURRENT_TIMESTAMP
               (Sample.JSON_parse [Examples.task1]) Sample.Date_getTime
               Examples.mixed st batch in
  world st'
  = foldl (fun w item => handleSyncError Sample.CURRENT_TIMESTAMP item "Unexpected token" w)
      (world st2) batch /\
  failed (result st') = (failed (result st2) + length batch)%nat /\
  success (result st') = success (result st2) /\
  conflicts (result st') = conflicts (result st2) /\
  total (result st') = total (result st2).
Proof.
  apply (exception_in_batch_fails_whole_batch Sample.Date_now Sample.CURRENT_TIMESTAMP
           (Sample.JSON_parse [Examples.task1]) Sample.Date_getTime Examples.mixed
           (mkState Examples.two_queued (mkResult 0 0 0 2)) _
           [Examples.good_item; Examples.broken_item] Examples.mixed_response
           "Unexpected token").
  - reflexivity.
  - vm_compute. reflexivity.
Defined.

(** Two items, the first acknowledged, the second throwing in the
    conflict branch: one success and two failures for a total of two; the
    acknowledged item has left the queue all the same. *)
Example counts_can_exceed_total :
  let after := Examples.pass Examples.mixed 10 Examples.two_queued in
  fst <$> after = Some (mkResult 1 2 0 2) /\
  (fmap (M:=list) (fun q => (q_id q, q_retry_count q, q_error_message q))
     ∘ sync_queue ∘ snd) <$> after
  = Some [("q02", 1%Z, Some "Unexpected token")].
Proof. split; vm_compute; reflexivity. Qed.

Lemma every_drained_item_is_counted_witness :
  exists r w',
    Examples.pass Examples.mixed 10 Examples.two_queued = Some (r, w') /\
    (total r <= success r + failed r + conflicts r)%nat.
Proof.
  apply (every_drained_item_is_counted Sample.Date_now Sample.CURRENT_TIMESTAMP
           (Sample.JSON_parse [Examples.task1]) Sample.Date_getTime Examples.mixed 10
           Examples.two_queued).
  lia.
Defined.

Lemma accept_all_no_conflicts : no_conflicts Examples.accept_all.
Proof.
  intros n batch resp [= <-]. cbn. apply Forall_fmap, Forall_forall. reflexivity.
Defined.

Lemma pass_without_conflicts_counts_each_item_once_witness :
  exists r w',
    Examples.pass Examples.accept_all 10 Examples.backlog = Some (r, w') /\
    conflicts r = 0%nat /\
    (success r + failed r = total r)%nat /\
    total r = length (sync_queue Examples.backlog).
Proof.
  apply (pass_without_conflicts_counts_each_item_once Sample.Date_now
           Sample.CURRENT_TIMESTAMP (Sample.JSON_parse [Examples.task1])
           Sample.Date_getTime Examples.accept_all 10 Examples.backlog).
  - lia.
  - exact accept_all_no_conflicts.
Defined.

Lemma zero_batch_size_never_returns_witness :
  (forall fuel, batch_loop 0 fuel 0 (drain Examples.queued) = None) /\
  Examples.pass Examples.accept_all 0 Examples.queued = None.
Proof.
  apply (zero_batch_size_never_returns Sample.Date_now Sample.CURRENT_TIMESTAMP
           (Sample.JSON_parse [Examples.task1]) Sample.Date_getTime
           Examples.accept_all Examples.queued).
  vm_compute. discriminate.
Defined.

Lemma pass_only_drops_items_witness :
  let w' := default Examples.two_queued
              (snd <$> Examples.pass Examples.mixed 10 Examples.two_queued) in
  item_content <$> sync_queue w' `sublist_of` item_content <$> sync_queue Examples.two_queued /\
  (length (sync_queue w') <= length (sync_queue Examples.two_queued))%nat /\
  t_id <$> tasks w' = t_id <$> tasks Examples.two_queued.
Proof.
  apply (pass_only_drops_items Sample.Date_now Sample.CURRENT_TIMESTAMP
           (Sample.JSON_parse [Examples.task1]) Sample.Date_getTime Examples.mixed 10
           Examples.two_queued _ (mkResult 1 2 0 2)).
  vm_compute. reflexivity.
Defined.

Lemma shipped_transmitter_fails_every_item_witness :
  let shipped (_ : nat) (items : list SyncQueueItem) : string + BatchSyncResponse :=
    inr (processBatch_source items) in
  let unreachable (_ : nat) (_ : list SyncQueueItem) : string + BatchSyncResponse :=
    inl "Unknown error" in
  exists w',
    Examples.pass shipped 10 Examples.backlog
    = Some (mkResult 0 (length (sync_queue Examples.backlog)) 0
              (length (sync_queue Examples.backlog)), w') /\
    item_content <$> sync_queue w' = item_content <$> sync_queue Examples.backlog /\
    t_id <$> tasks w' = t_id <$> tasks Examples.backlog /\
    Examples.pass shipped 10 Examples.backlog = Examples.pass unreachable 10 Examples.backlog.
Proof.
  apply (shipped_transmitter_fails_every_item Sample.Date_now Sample.CURRENT_TIMESTAMP
           (Sample.JSON_parse [Examples.task1]) Sample.Date_getTime 10 Examples.backlog).
  lia.
Defined.

Lemma post_task_rejects_bad_title_witness :
  post_task Sample.uuidv4 Sample.Date_now Sample.CURRENT_TIMESTAMP Sample.JSON_stringify
    (JsString EmptyString) JsOther Examples.one_task
  = Some (mkResponseOf 400 (ErrorBody "Title is required and must be a string"),
          Examples.one_task).
Proof.
  apply (post_task_rejects_bad_title Sample.uuidv4 Sample.Date_now
           Sample.CURRENT_TIMESTAMP Sample.JSON_stringify
           (JsString EmptyString) JsOther Examples.one_task).
  intros c rest. discriminate.
Defined.

Lemma post_task_creates_and_queues_witness :
  exists task w',
    post_task Sample.uuidv4 Sample.Date_now Sample.CURRENT_TIMESTAMP Sample.JSON_stringify
      (JsString "A") JsUndefined Examples.empty_world
    = Some (mkResponseOf 201 (TaskBody task), w') /\
    title task = "A" /\
    description task = default EmptyString (string_property JsUndefined) /\
    sync_status task = "pending" /\
    tasks w' = tasks Examples.empty_world ++ [row_of_task task] /\
    sql_select (same_pair (id task) create) (sync_queue w') <> [] /\
    Forall (fun q => q_data q = Sample.JSON_stringify (partial_of_task task) /\
                     q_retry_count q = 0%Z)
      (sql_select (same_pair (id task) create) (sync_queue w')) /\
    (Sample.uuidv4 (tick Examples.empty_world) ∉ t_id <$> tasks Examples.empty_world ->
     getTask (id task) w' = Some task).
Proof.
  apply (post_task_creates_and_queues Sample.uuidv4 Sample.Date_now
           Sample.CURRENT_TIMESTAMP Sample.JSON_stringify
           (Ascii.ascii_of_nat 65) EmptyString JsUndefined Examples.empty_world).
  reflexivity.
Defined.

(** The route and the two calls it makes give the same world. *)
Example post_task_is_create_then_enqueue :
  snd <$> post_task Sample.uuidv4 Sample.Date_now Sample.CURRENT_TIMESTAMP
            Sample.JSON_stringify (JsString "A") JsUndefined Examples.empty_world
  = Some Examples.queued.
Proof. vm_compute. reflexivity. Qed.

Lemma put_task_rejects_without_writing_witness :
  let out := put_task Sample.uuidv4 Sample.Date_now Sample.CURRENT_TIMESTAMP
               Sample.JSON_stringify Examples.T1 (JsString "B") JsOther JsUndefined
               Examples.queued in
  out.2 = Examples.queued /\
  status_code out.1
  = (if defined_non_string (JsString "B") || defined_non_string JsOther
        || defined_non_boolean JsUndefined
     then 400 else 404)%nat.
Proof.
  apply (put_task_rejects_without_writing Sample.uuidv4 Sample.Date_now
           Sample.CURRENT_TIMESTAMP Sample.JSON_stringify Examples.T1
           (JsString "B") JsOther JsUndefined Examples.queued).
  right. left. reflexivity.
Defined.

Lemma put_task_updates_and_queues_witness :
  let new :=
    {| id := Examples.T1;
       title := "B";
       description := description Examples.task1;
       completed := true;
       is_deleted := false;
       sync_status := "pending";
       created_at := created_at Examples.task1;
       updated_at := Sample.Date_now (tick Examples.queued);
       last_synced_at := last_synced_at Examples.task1;
       server_id := server_id Examples.task1 |} in
  let out := put_task Sample.uuidv4 Sample.Date_now Sample.CURRENT_TIMESTAMP
               Sample.JSON_stringify Examples.T1 (JsString "B") JsUndefined (JsBoolean true)
               Examples.queued in
  out.1 = mkResponseOf 200 (TaskBody new) /\
  getTask Examples.T1 out.2 = Some new /\
  sql_select (same_pair Examples.T1 update) (sync_queue out.2) <> [] /\
  Forall (fun q => q_data q = Sample.JSON_stringify (partial_of_task new) /\
                   q_retry_count q = 0%Z)
    (sql_select (same_pair Examples.T1 update) (sync_queue out.2)).
Proof.
  apply (put_task_updates_and_queues Sample.uuidv4 Sample.Date_now
           Sample.CURRENT_TIMESTAMP Sample.JSON_stringify Examples.T1
           (JsString "B") JsUndefined (JsBoolean true) Examples.queued Examples.task1);
    vm_compute; reflexivity.
Defined.

Lemma delete_task_hides_and_queues_witness :
  let out := delete_task Sample.uuidv4 Sample.Date_now Sample.CURRENT_TIMESTAMP
               Sample.JSON_stringify Examples.T1 Examples.queued in
  out.1 = mkResponseOf 200 SuccessBody /\
  getTask Examples.T1 out.2 = None /\
  sql_select (same_pair Examples.T1 delete) (sync_queue out.2) <> [] /\
  Forall (fun q => q_data q = Sample.JSON_stringify empty_partial /\ q_retry_count q = 0%Z)
    (sql_select (same_pair Examples.T1 delete) (sync_queue out.2)) /\
  delete_task Sample.uuidv4 Sample.Date_now Sample.CURRENT_TIMESTAMP
    Sample.JSON_stringify Examples.T1 out.2
  = (mkResponseOf 404 (ErrorBody "Task not found"), out.2).
Proof.
  apply (delete_task_hides_and_queues Sample.uuidv4 Sample.Date_now
           Sample.CURRENT_TIMESTAMP Sample.JSON_stringify Examples.T1 Examples.queued
           Examples.task1).
  vm_compute. reflexivity.
Defined.

Lemma post_sync_is_gated_witness :
  exists response w',
    post_sync Sample.Date_now Sample.CURRENT_TIMESTAMP (Sample.JSON_parse [Examples.task1])
      Sample.Date_getTime Examples.accept_all 10 Examples.probe_down Examples.queued
    = Some (response, w') /\
    (if Examples.probe_down (tick Examples.queued)
     then exists r, response = mkResponseOf 200 (SyncBody r) /\
                    total r = length (sync_queue Examples.queued) /\
                    Examples.pass Examples.accept_all 10 (bump Examples.queued)
                    = Some (r, w')
     else response = mkResponseOf 503 (ErrorBody "Server is unreachable for sync") /\
          tasks w' = tasks Examples.queued /\ sync_queue w' = sync_queue Examples.queued).
Proof.
  apply (post_sync_is_gated Sample.Date_now Sample.CURRENT_TIMESTAMP
           (Sample.JSON_parse [Examples.task1]) Sample.Date_getTime
           Examples.accept_all 10 Examples.probe_down Examples.queued).
  lia.
Defined.
